(** * fastai.train: training extensions and classification interpretation

    A shallow embedding of [fastai/train.py].  The module is glue code over
    PyTorch and [fastai.basic_train]; what it calls but does not define
    (tensor primitives, [Learner] methods, callback classes of other
    modules) is gathered in the class [Framework] below, so that every
    statement holds for whatever the framework does. *)

From Stdlib Require Import ZArith Lia Floats.SpecFloat.
From stdpp Require Import base option list gmap strings sorting.
From Equations Require Import Equations.

Local Open Scope Z_scope.

(** ** Python values *)

(** A Python [float] is an IEEE binary64 value. *)
Definition float := spec_float.

(** Truth value of a float in [if x:] : zero (of either sign) is false,
    everything else, NaN included, is true. *)
Definition float_truthy (x : float) : bool :=
  match x with
  | S754_zero _ => false
  | _ => true
  end.

(** An attribute of a Python object: it may be missing ([hasattr] is
    false), and when present it may hold [None]. *)
Inductive attr (A : Type) : Type :=
  | Missing
  | IsNone
  | Obj (v : A).
Arguments Missing {A}.
Arguments IsNone {A}.
Arguments Obj {A} v.

(** ** Tensors

    One-dimensional [int64] tensors are lists of [Z], matrices are lists of
    rows.  Arithmetic on [int64] wraps around. *)

Module Torch.

Definition wrap64 (z : Z) : Z := (z + 2 ^ 63) mod 2 ^ 64 - 2 ^ 63.

(** [torch.arange(0, c)] *)
Definition arange (c : nat) : list Z := Z.of_nat <$> seq 0 c.

(** [torch.zeros(r, c, dtype=int64)] *)
Definition zeros (r c : nat) : list (list Z) := replicate r (replicate c 0).

(** [t[i:i+1]]: a slice never fails, it is empty past the end. *)
Definition slice1 {A} (t : list A) (i : nat) : list A := take 1 (drop i t).

(** [v == x[:,None]]: [x] becomes a column, the result has shape
    [(len x, len v)]. *)
Definition eq_col (v x : list Z) : list (list bool) :=
  (λ xj, (λ vk, vk =? xj) <$> v) <$> x.

(** [v == x[:,None,None]]: shape [(len x, 1, len v)]. *)
Definition eq_col2 (v x : list Z) : list (list (list bool)) :=
  (λ xa, [(λ vk, vk =? xa) <$> v]) <$> x.

(** Broadcasting of the last dimension: sizes must agree unless one of
    them is 1. *)
Definition bcast1 {A B C} (f : A → B → C) (u : list A) (v : list B)
  : option (list C) :=
  match u, v with
  | [a], _ => Some (f a <$> v)
  | _, [b] => Some ((λ a, f a b) <$> u)
  | _, _ => if decide (length u = length v) then Some (zip_with f u v)
            else None
  end.

(** [a & b] for [a] of shape [(c, m)] and [b] of shape [(c', 1, n)]: [a] is
    read as [(1, c, m)], the result has shape [(c', c, bcast m n)]. *)
Definition and_bcast (a : list (list bool)) (b : list (list (list bool)))
  : option (list (list (list bool))) :=
  mapM (λ ba, match ba with
              | [row] => mapM (λ aj, bcast1 andb aj row) a
              | _ => None
              end) b.

(** [t.sum(2)] of a boolean tensor: an [int64] count per cell. *)
Definition sum2 (t : list (list (list bool))) : list (list Z) :=
  (λ plane : list (list bool),
     (λ cell : list bool,
        wrap64 (Z.of_nat (length (filter (λ b : bool, b = true) cell))))
     <$> plane) <$> t.

(** [torch.add(a, b, out=a)] on two matrices of the same shape. *)
Definition add (a b : list (list Z)) : list (list Z) :=
  zip_with (zip_with (λ u v, wrap64 (u + v))) a b.

End Torch.

(** ** Floating point helpers of Python and NumPy *)

(** [a / b] on Python integers: the binary64 value nearest to the exact
    quotient (ties to even).  [ZeroDivisionError] and [OverflowError] are
    [None].  The mantissas of [spec_float] are unbounded, so the integers
    are passed to the IEEE division as they are and rounded once. *)
Definition int_to_operand (a : Z) : float :=
  match a with
  | Z0 => S754_zero false
  | Zpos p => S754_finite false p 0
  | Zneg p => S754_finite true p 0
  end.

Definition int_truediv (a b : Z) : option float :=
  if decide (b = 0) then None
  else match SFdiv 53 1024 (int_to_operand a) (int_to_operand b) with
       | S754_infinity _ | S754_nan => None
       | q => Some q
       end.



(** ** Python lists of object references *)

Definition loc := positive.

(** [l.remove(x)]: drops the first element equal to [x], [ValueError]
    when there is none.  Objects compare by identity. *)
Fixpoint py_remove (x : loc) (l : list loc) : option (list loc) :=
  match l with
  | [] => None
  | y :: l' => if decide (y = x) then Some l' else (y ::.) <$> py_remove x l'
  end.

Definition inspect {A} (a : A) : {b | a = b} := exist _ a eq_refl.

(** [for cb in l: if P(cb): l.remove(cb)].  The list iterator keeps an
    index into the list it walks; the body shortens that same list, and the
    iterator stops when the index reaches the current length. *)
Equations? for_remove (P : loc → bool) (l : list loc) (i : nat)
  : option (list loc) by wf (length l - i)%nat lt :=
  for_remove P l i with inspect (l !! i) => {
    | exist _ None _ => Some l
    | exist _ (Some cb) H with P cb => {
       | false => for_remove P l (S i)
       | true with inspect (py_remove cb l) => {
           | exist _ None _ => None
           | exist _ (Some l') H' => for_remove P l' (S i) } } }.
Proof.
  - assert (length l = S (length l')) as Hlen.
    { clear -H'. revert l' H'.
      induction l as [|y l IH]; intros l'; simpl; [done|].
      case_decide; [by intros [= ->]|].
      destruct (py_remove cb l) eqn:E; simpl; [|done].
      intros [= <-]. simpl. f_equal. by apply IH. }
    apply lookup_lt_Some in H. lia.
  - apply lookup_lt_Some in H. lia.
Qed.

(** ** The framework *)

(** What [train.py] takes from PyTorch, NumPy and the rest of fastai. *)
Class Framework := {
  (** [nn.Module] with its parameters and their gradients *)
  Module_ : Type;
  (** a [DeviceDataLoader] *)
  DataLoader : Type;
  (** a batch transform; [batch_to_half] is one *)
  Tfm : Type;
  (** learning rates: a float, a slice, a list or an array *)
  LRs : Type;
  (** keyword arguments passed through *)
  Kwargs : Type;
  (** the loss functions of the framework *)
  Criterion : Type;
  (** the fields of [Learner] this module never names *)
  Rest : Type;
  (** callback classes and callables defined elsewhere *)
  ForeignCallback : Type;
  ForeignCallable : Type;
  (** [torch.Tensor.argmax(dim=1)] of a float matrix; fails on rows without
      columns *)
  argmax_dim1 : list (list float) → option (list Z);
  batch_to_half : Tfm;
  model2half : Module_ → Module_;
  (** [nn.Module.float] *)
  Module_float : Module_ → Module_;
  (** [nn.utils.clip_grad_norm_(model.parameters(), max_norm)] *)
  clip_grad_norm_ : Module_ → float → Module_;
  (** [DeviceDataLoader.remove_tfm], which may raise *)
  remove_tfm : DataLoader → Tfm → option DataLoader;
  (** [len(dl)], a non-negative machine-size integer *)
  len : DataLoader → Z;
  is_listy : LRs → bool;
  np_array : LRs → LRs;
}.

Section Train.
Context `{FW : Framework}.

(** [DataBunch]: the loaders are attributes that may be missing or [None],
    [c] is the number of classes. *)
Record DataBunch := {
  train_dl : attr DataLoader;
  valid_dl : attr DataLoader;
  test_dl : attr DataLoader;
  c : nat;
}.

(** *** Objects *)

Inductive LossFunc :=
  | Crit (f : Criterion)
  | MixUpLoss (crit : LossFunc).

Inductive PyVal :=
  | PyFloat (x : float)
  | PyBool (b : bool).

Inductive CallbackClass :=
  | class_MixUpCallback
  | class_GradientClipping.

(** A callback factory in [callback_fns]: a [functools.partial] with its
    [func] and [keywords], or some other callable. *)
Inductive Callable :=
  | partial (func : CallbackClass) (keywords : list (string * PyVal))
  | Foreign (f : ForeignCallable).

(** Callback objects, by class, with their fields. *)
Inductive Callback :=
  | MixedPrecision (learn : loc) (loss_scale : float) (flat_master : bool)
  | OneCycleScheduler (learn : loc) (lr_max : LRs) (moms : float * float)
      (div_factor pct_start : float) (kwargs : Kwargs)
  | LRFinder (learn : loc) (start_lr end_lr : LRs) (num_it : Z)
      (stop_div : bool)
  | GradientClipping (learn : loc) (clip : float)
  | OtherCallback (cb : ForeignCallback).

Definition isinstance_MixedPrecision (cb : Callback) : bool :=
  match cb with
  | MixedPrecision _ _ _ => true
  | _ => false
  end.

Record Learner := {
  model : Module_;
  data : DataBunch;
  loss_func : LossFunc;
  callback_fns : list Callable;
  callbacks : list loc;
  mp_cb : attr loc;
  rest : Rest;
}.

Definition set_model (v : Module_) (l : Learner) : Learner :=
  {| model := v; data := data l; loss_func := loss_func l;
     callback_fns := callback_fns l; callbacks := callbacks l;
     mp_cb := mp_cb l; rest := rest l |}.
Definition set_data (v : DataBunch) (l : Learner) : Learner :=
  {| model := model l; data := v; loss_func := loss_func l;
     callback_fns := callback_fns l; callbacks := callbacks l;
     mp_cb := mp_cb l; rest := rest l |}.
Definition set_loss_func (v : LossFunc) (l : Learner) : Learner :=
  {| model := model l; data := data l; loss_func := v;
     callback_fns := callback_fns l; callbacks := callbacks l;
     mp_cb := mp_cb l; rest := rest l |}.
Definition set_callback_fns (v : list Callable) (l : Learner) : Learner :=
  {| model := model l; data := data l; loss_func := loss_func l;
     callback_fns := v; callbacks := callbacks l;
     mp_cb := mp_cb l; rest := rest l |}.
Definition set_callbacks (v : list loc) (l : Learner) : Learner :=
  {| model := model l; data := data l; loss_func := loss_func l;
     callback_fns := callback_fns l; callbacks := v;
     mp_cb := mp_cb l; rest := rest l |}.
Definition set_mp_cb (v : attr loc) (l : Learner) : Learner :=
  {| model := model l; data := data l; loss_func := loss_func l;
     callback_fns := callback_fns l; callbacks := callbacks l;
     mp_cb := v; rest := rest l |}.
Definition set_rest (v : Rest) (l : Learner) : Learner :=
  {| model := model l; data := data l; loss_func := loss_func l;
     callback_fns := callback_fns l; callbacks := callbacks l;
     mp_cb := mp_cb l; rest := v |}.

(** The [callbacks] argument of [fit_one_cycle]: [None], one callback or a
    list. *)
Inductive CallbacksArg :=
  | ArgNone
  | ArgItem (cb : loc)
  | ArgList (cbs : list loc).

(** The methods of [Learner], the helpers of [fastai.core] and the base
    class of the callbacks that [train.py] calls. *)
Class BasicTrain := {
  lr_range : Learner → LRs → LRs;
  listify : CallbacksArg → list loc;
  (** what a run of [Learner.fit] does to the learner *)
  fit_effect : Z → LRs → option float → list loc → option Kwargs
               → Learner → Learner;
  (** [LearnerCallback.__init__(self, learn)], the base-class constructor
      of the callbacks built here: it registers the callback at [self] on
      the learner, as an attribute named after the class of the callback.
      Given the name of the class and [self], what this does to the other
      attributes of the learner. *)
  LearnerCallback_init : string → loc → Rest → Rest;
}.
Context `{BT : BasicTrain}.

(** *** The store and its monad *)

(** Calls into the framework that train or touch gradients. *)
Inductive Call :=
  | call_fit (learn : loc) (epochs : Z) (lr : LRs) (wd : option float)
      (callbacks : list loc) (kwargs : option Kwargs)
  | call_clip_grad_norm_ (learn : loc) (max_norm : float).

Record World := {
  learners : gmap loc Learner;
  objects : gmap loc Callback;
  calls : list Call;
}.

(** State and exception: [None] is a raised exception. *)
Definition M (A : Type) : Type := World → option (A * World).

#[export] Instance M_ret : MRet M := λ A a w, Some (a, w).
#[export] Instance M_bind : MBind M := λ A B f m w,
  match m w with
  | Some (a, w') => f a w'
  | None => None
  end.

Definition raise {A} : M A := λ _, None.

Definition get_learner (r : loc) : M Learner := λ w,
  l ← learners w !! r; Some (l, w).

Definition set_learner (r : loc) (l : Learner) : M unit := λ w,
  Some (tt, {| learners := <[r := l]> (learners w); objects := objects w;
               calls := calls w |}).

Definition modify_learner (r : loc) (f : Learner → Learner) : M unit :=
  l ← get_learner r; set_learner r (f l).

(** A constructor call: the new object gets an address that is not in use. *)
Definition new (cb : Callback) : M loc := λ w,
  let r := fresh (dom (objects w)) in
  Some (r, {| learners := learners w; objects := <[r := cb]> (objects w);
              calls := calls w |}).

Definition record_call (e : Call) : M unit := λ w,
  Some (tt, {| learners := learners w; objects := objects w;
               calls := calls w ++ [e] |}).

(** The learner once the base-class constructor has registered on it the
    callback at [self], an object of the class [class_name]. *)
Definition registered (class_name : string) (self : loc) (l : Learner)
  : Learner :=
  set_rest (LearnerCallback_init class_name self (rest l)) l.

(** A constructor call of a subclass of [LearnerCallback]: a new object,
    which [super().__init__(learn)] registers on the learner. *)
Definition new_LearnerCallback (class_name : string) (learn : loc)
    (cb : Callback) : M loc :=
  self ← new cb;
  modify_learner learn (registered class_name self);;
  mret self.

(** [learn.fit(epochs, lr, wd=wd, callbacks=callbacks, **kwargs)] *)
Definition Learner_fit (learn : loc) (epochs : Z) (lr : LRs)
    (wd : option float) (callbacks : list loc) (kwargs : option Kwargs)
  : M unit :=
  record_call (call_fit learn epochs lr wd callbacks kwargs);;
  modify_learner learn (fit_effect epochs lr wd callbacks kwargs).

(** ** Training extensions *)

Definition fit_one_cycle (learn : loc) (cyc_len : Z) (max_lr : LRs)
    (moms : float * float) (div_factor pct_start : float)
    (wd : option float) (callbacks : CallbacksArg) (kwargs : Kwargs)
  : M unit :=
  l ← get_learner learn;
  let max_lr := lr_range l max_lr in
  let callbacks := listify callbacks in
  sched ← new_LearnerCallback "OneCycleScheduler" learn
             (OneCycleScheduler learn max_lr moms div_factor pct_start
                kwargs);
  let callbacks := callbacks ++ [sched] in
  Learner_fit learn cyc_len max_lr wd callbacks None.


Definition to_fp16 (learn : loc) (loss_scale : float) (flat_master : bool)
  : M loc :=
  modify_learner learn (λ l, set_model (model2half (model l)) l);;
  cb ← new_LearnerCallback "MixedPrecision" learn
          (MixedPrecision learn loss_scale flat_master);
  modify_learner learn (set_mp_cb (Obj cb));;
  l ← get_learner learn;
  match mp_cb l with
  | Obj cb => modify_learner learn
                (λ l, set_callbacks (callbacks l ++ [cb]) l)
  | _ => raise
  end;;
  mret learn.

(** [if hasattr(data, name) and data.name is not None:
       data.name.remove_tfm(batch_to_half)] *)
Definition remove_half_if_present (dl : attr DataLoader)
  : option (attr DataLoader) :=
  match dl with
  | Obj d => Obj <$> remove_tfm d batch_to_half
  | _ => Some dl
  end.

Definition to_fp32 (learn : loc) : M loc := λ w,
  l ← learners w !! learn;
  tr ← match train_dl (data l) with
       | Obj d => remove_tfm d batch_to_half
       | _ => None
       end;
  va ← remove_half_if_present (valid_dl (data l));
  te ← remove_half_if_present (test_dl (data l));
  let d := {| train_dl := Obj tr; valid_dl := va; test_dl := te;
              c := c (data l) |} in
  cbs ← for_remove (λ cb, match objects w !! cb with
                          | Some o => isinstance_MixedPrecision o
                          | None => false
                          end) (callbacks l) 0;
  let l := set_callbacks cbs (set_data d l) in
  let l := set_model (Module_float (model l)) l in
  Some (learn, {| learners := <[learn := l]> (learners w);
                  objects := objects w; calls := calls w |}).

Definition mixup (learn : loc) (alpha : float) (stack_x stack_y : bool)
  : M loc :=
  (if stack_y
   then modify_learner learn (λ l, set_loss_func (MixUpLoss (loss_func l)) l)
   else mret tt);;
  modify_learner learn
    (λ l, set_callback_fns
            (callback_fns l ++
             [partial class_MixUpCallback
                [("alpha"%string, PyFloat alpha);
                 ("stack_x"%string, PyBool stack_x);
                 ("stack_y"%string, PyBool stack_y)]]) l);;
  mret learn.

(** ** GradientClipping *)

(** [GradientClipping.__init__]: the base class keeps [learn] and registers
    the callback on it, this class adds [clip]. *)
Definition GradientClipping_init (learn : loc) (clip : float) : M loc :=
  new_LearnerCallback "GradientClipping" learn (GradientClipping learn clip).

Definition on_backward_end (self : loc) : M unit := λ w,
  match objects w !! self with
  | Some (GradientClipping learn clip) =>
      if float_truthy clip
      then (record_call (call_clip_grad_norm_ learn clip);;
            modify_learner learn
              (λ l, set_model (clip_grad_norm_ (model l) clip) l)) w
      else Some (tt, w)
  | _ => None
  end.

Definition clip_grad (learn : loc) (clip : float) : M loc :=
  modify_learner learn
    (λ l, set_callback_fns
            (callback_fns l ++
             [partial class_GradientClipping
                [("clip"%string, PyFloat clip)]]) l);;
  mret learn.

(** ** ClassificationInterpretation *)

Record ClassificationInterpretation := {
  ci_data : DataBunch;
  probs : list (list float);
  y_true : list Z;
  losses : list float;
  pred_class : list Z;
}.

(** [__init__] *)
Definition ClassificationInterpretation_init (data : DataBunch)
    (probs : list (list float)) (y_true : list Z) (losses : list float)
  : option ClassificationInterpretation :=
  pc ← argmax_dim1 probs;
  Some {| ci_data := data; probs := probs; y_true := y_true;
          losses := losses; pred_class := pc |}.

(** One iteration of the loop of [confusion_matrix]: the slice of sample [i]. *)
Definition cm_slice (x pred y : list Z) (i : nat) : option (list (list Z)) :=
  Torch.sum2 <$> Torch.and_bcast (Torch.eq_col (Torch.slice1 pred i) x)
                                 (Torch.eq_col2 (Torch.slice1 y i) x).

Definition confusion_matrix (self : ClassificationInterpretation)
  : option (list (list Z)) :=
  let x := Torch.arange (c (ci_data self)) in
  let cm := Torch.zeros (c (ci_data self)) (c (ci_data self)) in
  foldl (λ acc i, cm ← acc;
                  cm_slice ← cm_slice x (pred_class self) (y_true self) i;
                  Some (Torch.add cm cm_slice))
        (Some cm) (seq 0 (length (y_true self))).

(** [np.fill_diagonal(cm, v)] *)
Definition fill_diagonal (cm : list (list Z)) (v : Z) : list (list Z) :=
  imap (λ i row, <[i := v]> row) cm.

(** [zip( *np.where(cm > min_val))]: the index pairs of the cells above
    [min_val], row by row. *)
Definition where_gt (cm : list (list Z)) (min_val : Z) : list (nat * nat) :=
  mjoin (imap (λ i row,
                 omap id (imap (λ j v, if decide (min_val < v)
                                       then Some (i, j) else None) row))
              cm).

(** [range(n)[i]] *)
Definition range_get (n i : nat) : option Z :=
  if decide (i < n)%nat then Some (Z.of_nat i) else None.

(** [sorted(res, key=itemgetter(2), reverse=True)]: descending and stable,
    equal keys keep their order. *)
Fixpoint insert_desc (t : Z * Z * Z) (l : list (Z * Z * Z))
  : list (Z * Z * Z) :=
  match l with
  | [] => [t]
  | u :: l' => if decide (t.2 < u.2) then u :: insert_desc t l'
               else t :: u :: l'
  end.

Definition sorted_desc (l : list (Z * Z * Z)) : list (Z * Z * Z) :=
  foldr insert_desc [] l.

Definition most_confused (self : ClassificationInterpretation) (min_val : Z)
  : option (list (Z * Z * Z)) :=
  cm ← confusion_matrix self;
  let cm := fill_diagonal cm 0 in
  res ← mapM (λ '(i, j),
               ri ← range_get (c (ci_data self)) i;
               rj ← range_get (c (ci_data self)) j;
               v ← cm !! i ≫= (.!! j);
               Some (ri, rj, v))
             (where_gt cm min_val);
  Some (sorted_desc res).

(** ** Vocabulary of the statements *)

(** The number of sample indices [k < n] with [y[k] == a] and
    [pred[k] == j]. *)
Definition tally (pred y : list Z) (a j : Z) (n : nat) : nat :=
  length (filter (λ k, y !! k = Some a ∧ pred !! k = Some j) (seq 0 n)).

(** The number of samples with a given label. *)
Definition class_count (labels : list Z) (i : Z) : nat :=
  length (filter (λ v, v = i) labels).

Definition Zsum (l : list Z) : Z := foldr Z.add 0 l.

Definition row_sum (cm : list (list Z)) (i : nat) : Z :=
  Zsum (default [] (cm !! i)).

Definition col_sum (cm : list (list Z)) (j : nat) : Z :=
  Zsum ((λ row, default 0 (row !! j)) <$> cm).

Definition in_classes (n : nat) (labels : list Z) : Prop :=
  Forall (λ v, 0 ≤ v < Z.of_nat n) labels.

(** [self.clip] of a callback object *)
Definition GradientClipping_clip (cb : Callback) : option float :=
  match cb with
  | GradientClipping _ clip => Some clip
  | _ => None
  end.

(** [p.keywords[name]] of a [partial] *)
Definition kwarg (name : string) (kw : list (string * PyVal))
  : option PyVal :=
  (λ hit, hit.2.2) <$> list_find (λ p, p.1 = name) kw.




(** C5 as first read: the state that [GradientClipping.__init__] introduces
    lies in the object it builds, so the learner is left as it was. *)
Definition only_wrapper_state : Prop :=
  ∀ learn clip w l self w',
    learners w !! learn = Some l →
    GradientClipping_init learn clip w = Some (self, w') →
    objects w' !! self ≫= GradientClipping_clip = Some clip
    ∧ learners w' = learners w.


End Train.

(** ** ShowGraph *)

(** What [on_epoch_end] reads of [learn.recorder]: the training loss of
    every batch so far, the validation loss of every epoch so far and the
    number of batches of every epoch so far. *)
Record Recorder := {
  rec_losses : list float;
  rec_val_losses : list float;
  nb_batches : list Z;
}.

(** [Tensor(xs)] holds [float32] values. *)
Definition to_float32 (x : float) : float :=
  match x with
  | S754_finite s m e => binary_round 24 128 s m e
  | _ => x
  end.

(** The builtin [max] of a sequence: [ValueError] on an empty one, else the
    first element, replaced by each later one that compares greater. *)
Definition py_max (xs : list float) : option float :=
  match xs with
  | [] => None
  | x :: xs' => Some (foldl (λ m y, if SFltb m y then y else m) x xs')
  end.

(** [np.array(l).cumsum()] on [int64] *)
Fixpoint cumsum_from (acc : Z) (l : list Z) : list Z :=
  match l with
  | [] => []
  | x :: l' => Torch.wrap64 (acc + x) :: cumsum_from (Torch.wrap64 (acc + x)) l'
  end.

Definition cumsum (l : list Z) : list Z := cumsum_from 0 l.

(** One call of [pbar.update_graph(graphs, x_bounds, y_bounds)]. *)
Record UpdateGraph := {
  graphs : list (list Z * list float);
  x_bounds : Z * Z;
  y_bounds : Z * float;
}.

(** [ShowGraph.on_epoch_end]: the value returned ([None] or [False]) and the
    calls made on the progress bar; the outer [None] is an exception. *)
Definition ShowGraph_on_epoch_end {Metrics} (rec : Recorder) (n_epochs : Z)
    (last_metrics : option Metrics)
  : option (option bool * list UpdateGraph) :=
  match last_metrics with
  | None => Some (None, [])
  | Some _ =>
      let iters := Z.of_nat <$> seq 0 (length (rec_losses rec)) in
      let val_iter := cumsum (nb_batches rec) in
      final ← last (nb_batches rec);
      let x_bounds :=
        (0, (n_epochs - Z.of_nat (length (nb_batches rec))) * final
            + Z.of_nat (length (rec_losses rec))) in
      m1 ← py_max (to_float32 <$> rec_losses rec);
      m2 ← py_max (to_float32 <$> rec_val_losses rec);
      top ← py_max [m1; m2];
      Some (Some false,
            [{| graphs := [(iters, rec_losses rec);
                           (val_iter, rec_val_losses rec)];
                x_bounds := x_bounds; y_bounds := (0, top) |}])
  end.

(** ** More vocabulary *)

(** The default of [clip] in [GradientClipping.__init__]. *)
Definition GradientClipping_default_clip : float := S754_zero false.


Definition in_range (n : nat) (v : Z) : bool :=
  bool_decide (0 ≤ v < Z.of_nat n).

(** Sample [k] has a true label and a prediction, both among the classes. *)
Definition sample_counted (n : nat) (pred y : list Z) (k : nat) : bool :=
  match y !! k, pred !! k with
  | Some t, Some p => in_range n t && in_range n p
  | _, _ => false
  end.

(** Sample [k] is predicted right, with a label among the classes. *)
Definition sample_correct (n : nat) (pred y : list Z) (k : nat) : bool :=
  match y !! k, pred !! k with
  | Some t, Some p => bool_decide (t = p) && in_range n t
  | _, _ => false
  end.

(** The sum of all cells and the sum of the diagonal of a matrix. *)
Definition total (cm : list (list Z)) : Z := Zsum (Zsum <$> cm).

Definition trace (cm : list (list Z)) : Z :=
  Zsum (imap (λ i row, default 0 (row !! i)) cm).

(** The order in which [most_confused] lists its entries: by count, the
    larger first, and entries of equal count by cell, row by row. *)
Definition entry_before (a b : Z * Z * Z) : Prop :=
  b.2 < a.2
  ∨ (b.2 = a.2 ∧ (a.1.1 < b.1.1 ∨ (a.1.1 = b.1.1 ∧ a.1.2 < b.1.2))).

(** The triple that [most_confused] builds for the cell at [p]. *)
Definition cell_triple (cm : list (list Z)) (p : nat * nat) : Z * Z * Z :=
  (Z.of_nat p.1, Z.of_nat p.2, default 0 (cm !! p.1 ≫= (.!! p.2))).

Section MoreVocabulary.
Context `{FW : Framework} `{BT : !BasicTrain}.

(** [isinstance(cb, MixedPrecision)] for the object at [cb]. *)
Definition is_MixedPrecision_at (w : World) (cb : loc) : bool :=
  match objects w !! cb with
  | Some o => isinstance_MixedPrecision o
  | None => false
  end.

(** Every callback of the list is an object of the store, none of them a
    [MixedPrecision]. *)
Definition no_MixedPrecision (w : World) (cbs : list loc) : Prop :=
  Forall (λ cb, ∃ o, objects w !! cb = Some o
                     ∧ isinstance_MixedPrecision o = false) cbs.

(** [n] backward passes in a row, each one ending in [on_backward_end]. *)
Fixpoint backward_passes (self : loc) (n : nat) : M unit :=
  match n with
  | O => mret tt
  | S n' => on_backward_end self;; backward_passes self n'
  end.

(** The interpretation with the parts of label and prediction exchanged. *)
Definition swap_roles (self : ClassificationInterpretation)
  : ClassificationInterpretation :=
  {| ci_data := ci_data self; probs := probs self;
     y_true := pred_class self; losses := losses self;
     pred_class := y_true self |}.

(** The samples of an interpretation as pairs of label and prediction. *)
Definition samples (self : ClassificationInterpretation) : list (Z * Z) :=
  zip (y_true self) (pred_class self).

End MoreVocabulary.

(** ** A small framework to run the definitions on

    Every operation of the framework is kept symbolic: a model is the list
    of conversions applied to it, a data loader is its length and its list
    of transforms, the other attributes of a learner are the callbacks
    registered on it, by class and latest first. *)

Module Demo.

Inductive op :=
  | op_half
  | op_float
  | op_clip (max_norm : float).

Record loader := { n_batches : Z; tfms : list nat }.

Definition remove_first (t : nat) (l : list nat) : list nat :=
  match list_find (λ u, u = t) l with
  | Some (i, _) => delete i l
  | None => l
  end.

(** [argmax] of one row: the index of the first largest entry. *)
Fixpoint argmax_from (best_i : Z) (best : float) (i : Z) (row : list float)
  : Z :=
  match row with
  | [] => best_i
  | v :: row' => if SFltb best v then argmax_from i v (i + 1) row'
                 else argmax_from best_i best (i + 1) row'
  end.

Definition argmax_row (row : list float) : option Z :=
  match row with
  | [] => None
  | v :: row' => Some (argmax_from 0 v 1 row')
  end.

#[export] Instance framework : Framework := {|
  Module_ := list op;
  DataLoader := loader;
  Tfm := nat;
  LRs := float;
  Kwargs := unit;
  Criterion := unit;
  Rest := list (string * loc);
  ForeignCallback := unit;
  ForeignCallable := unit;
  argmax_dim1 := mapM argmax_row;
  batch_to_half := 0%nat;
  model2half := λ m, m ++ [op_half];
  Module_float := λ m, m ++ [op_float];
  clip_grad_norm_ := λ m x, m ++ [op_clip x];
  remove_tfm := λ d t, Some {| n_batches := n_batches d;
                               tfms := remove_first t (tfms d) |};
  len := n_batches;
  is_listy := λ _, false;
  np_array := λ x, x;
|}.

#[export] Instance basic_train : BasicTrain := {|
  lr_range := λ _ lr, lr;
  listify := λ a, match a with
                  | ArgNone => []
                  | ArgItem cb => [cb]
                  | ArgList cbs => cbs
                  end;
  fit_effect := λ _ _ _ _ _ l, l;
  LearnerCallback_init := λ class_name self attrs,
                            (class_name, self) :: attrs;
|}.

(** The float nearest to [a / b]. *)
Definition ratio (a b : Z) : float := default S754_nan (int_truediv a b).

Definition bunch (n : Z) (classes : nat) : DataBunch :=
  {| train_dl := Obj {| n_batches := n; tfms := [0%nat] |};
     valid_dl := IsNone; test_dl := Missing; c := classes |}.

Definition learner (n : Z) : Learner :=
  {| model := []; data := bunch n 2; loss_func := Crit tt;
     callback_fns := []; callbacks := []; mp_cb := Missing; rest := [] |}.

(** One learner at address 1, over a loader of [n] batches. *)
Definition world (n : Z) : World :=
  {| learners := {[ 1%positive := learner n ]}; objects := ∅;
     calls := [] |}.

(** The same store with one [GradientClipping] callback at address 1. *)
Definition clipping_world (clip : float) : World :=
  {| learners := {[ 1%positive := learner 3 ]};
     objects := {[ 1%positive := GradientClipping 1%positive clip ]};
     calls := [] |}.

(** Three samples over two classes. *)
Definition interp : ClassificationInterpretation :=
  {| ci_data := bunch 1 2;
     probs := [[ratio 9 10; ratio 1 10]; [ratio 1 5; ratio 4 5];
               [ratio 3 10; ratio 7 10]];
     y_true := [0; 1; 0];
     losses := [ratio 1 10; ratio 1 5; ratio 6 5];
     pred_class := [0; 1; 1] |}.

(** One sample of the only class, predicted right. *)
Definition single : ClassificationInterpretation :=
  {| ci_data := bunch 1 1;
     probs := [[ratio 1 1]];
     y_true := [0];
     losses := [ratio 0 1];
     pred_class := [0] |}.

(** Samples over two classes with given labels and predictions, the
    probabilities being one-hot at the prediction. *)
Definition labelled (y pred : list Z) : ClassificationInterpretation :=
  {| ci_data := bunch 1 2;
     probs := (λ p, if decide (p = 0) then [ratio 1 1; ratio 0 1]
                    else [ratio 0 1; ratio 1 1]) <$> pred;
     y_true := y;
     losses := (λ _, ratio 0 1) <$> y;
     pred_class := pred |}.

(** A learner with three callbacks, the second one a [MixedPrecision]. *)
Definition busy_learner : Learner :=
  {| model := [op_half]; data := bunch 3 2; loss_func := Crit tt;
     callback_fns := [];
     callbacks := [1%positive; 2%positive; 3%positive];
     mp_cb := Obj 2%positive; rest := [] |}.

Definition busy_world : World :=
  {| learners := {[ 1%positive := busy_learner ]};
     objects := {[ 1%positive := GradientClipping 1%positive (ratio 1 10);
                   2%positive := MixedPrecision 1%positive (ratio 512 1)
                                   false;
                   3%positive := OtherCallback tt ]};
     calls := [] |}.

(** A learner with one callback, a [GradientClipping]. *)
Definition clipped_learner : Learner :=
  {| model := []; data := bunch 3 2; loss_func := Crit tt;
     callback_fns := []; callbacks := [1%positive]; mp_cb := Missing;
     rest := [] |}.

Definition clipped_world : World :=
  {| learners := {[ 1%positive := clipped_learner ]};
     objects := {[ 1%positive := GradientClipping 1%positive (ratio 1 10) ]};
     calls := [] |}.

(** A learner whose data has no training loader. *)
Definition bare_learner : Learner :=
  {| model := [];
     data := {| train_dl := IsNone; valid_dl := IsNone; test_dl := Missing;
                c := 2 |};
     loss_func := Crit tt; callback_fns := []; callbacks := [];
     mp_cb := Missing; rest := [] |}.

Definition bare_world : World :=
  {| learners := {[ 1%positive := bare_learner ]}; objects := ∅;
     calls := [] |}.

(** The recorder after two epochs of two batches each. *)
Definition recorder : Recorder :=
  {| rec_losses := [ratio 9 10; ratio 7 10; ratio 3 5; ratio 1 2];
     rec_val_losses := [ratio 4 5; ratio 11 20];
     nb_batches := [2; 2] |}.

End Demo.

(** * Proofs *)

(** ** Float division of integers *)

Section FloatFacts.





















End FloatFacts.

(** ** The confusion matrix *)

Section TensorFacts.

Lemma wrap64_small z : - 2 ^ 63 ≤ z < 2 ^ 63 → Torch.wrap64 z = z.
Proof.
  intros Hz. unfold Torch.wrap64.
  rewrite Z.mod_small; lia.
Qed.

Lemma mapM_fmap_total {A B C} (f : B → option C) (g : A → B) (h : A → C)
    (l : list A) :
  (∀ x, f (g x) = Some (h x)) → mapM f (g <$> l) = Some (h <$> l).
Proof.
  intros Hf. induction l as [|x l IH]; [done|].
  cbn. rewrite Hf. cbn. fold (mapM f (g <$> l)). rewrite IH. done.
Qed.

Lemma fmap_fmap_ext {A B C} (f : A → B) (g : B → C) (h : A → C) (l : list A) :
  (∀ a, g (f a) = h a) → g <$> (f <$> l) = h <$> l.
Proof. intros Hgf. induction l; simpl; [done|]. by f_equal. Qed.

Lemma zip_with_fmap_same {A B C D} (f : B → C → D) (g : A → B) (h : A → C)
    (l : list A) :
  zip_with f (g <$> l) (h <$> l) = (λ x, f (g x) (h x)) <$> l.
Proof. induction l; simpl; [done|]. by f_equal. Qed.

(** The matrix whose cell [(a, j)] is [f a j], rows and columns indexed by
    the values of [x]. *)
Local Abbreviation matrix_of x f := ((λ a, (λ j, f a j) <$> x) <$> x).

Lemma zeros_matrix_of n :
  Torch.zeros n n = matrix_of (Torch.arange n) (λ _ _ : Z, 0).
Proof.
  unfold Torch.zeros, Torch.arange. symmetry.
  erewrite (const_fmap _ _ (replicate n 0)).
  - by rewrite length_fmap, length_seq.
  - intros i x _. erewrite const_fmap; [|done].
    by rewrite length_fmap, length_seq.
Qed.

Lemma add_matrix_of (x : list Z) (f g : Z → Z → Z) :
  Torch.add (matrix_of x f) (matrix_of x g)
  = matrix_of x (λ a j, Torch.wrap64 (f a j + g a j)).
Proof.
  unfold Torch.add. rewrite zip_with_fmap_same.
  apply list_fmap_ext. intros _ a _. by rewrite zip_with_fmap_same.
Qed.

Lemma slice1_lookup {A} (t : list A) i :
  Torch.slice1 t i = match t !! i with Some v => [v] | None => [] end.
Proof.
  unfold Torch.slice1. destruct (t !! i) as [v|] eqn:E.
  - by rewrite (drop_S _ _ _ E).
  - apply lookup_ge_None in E. by rewrite drop_ge.
Qed.

(** The slice of one sample is the indicator matrix of its
    (true, predicted) pair; a sample without a prediction adds nothing. *)
Lemma cm_slice_indicator (x pred y : list Z) (i : nat) :
  (i < length y)%nat →
  cm_slice x pred y i
  = Some (matrix_of x (λ a j, if decide (y !! i = Some a ∧ pred !! i = Some j)
                              then 1 else 0)).
Proof.
  intros Hi. apply lookup_lt_is_Some in Hi as [t Ht].
  unfold cm_slice. rewrite !slice1_lookup, Ht.
  unfold Torch.and_bcast, Torch.eq_col2, Torch.eq_col.
  destruct (pred !! i) as [p|] eqn:Hp.
  - erewrite (mapM_fmap_total _ _
                (λ xa, (λ xj, [(p =? xj) && (t =? xa)]) <$> x)).
    2:{ intros xa. cbn. by apply mapM_fmap_total. }
    cbn. f_equal. unfold Torch.sum2.
    apply fmap_fmap_ext. intros a. apply fmap_fmap_ext. intros j. cbn.
    destruct (Z.eqb_spec p j) as [->|Hne], (Z.eqb_spec t a) as [->|Hne'];
      cbn; destruct (decide (_ ∧ _)) as [Hd|Hd];
      solve [done | exfalso; subst; intuition congruence].
  - erewrite (mapM_fmap_total _ _ (λ xa, (λ xj, []) <$> x)).
    2:{ intros xa. cbn. by apply mapM_fmap_total. }
    cbn. f_equal. unfold Torch.sum2.
    apply fmap_fmap_ext. intros a. apply fmap_fmap_ext. intros j. cbn.
    case_decide as Hd; [by destruct Hd|done].
Qed.

Lemma tally_S pred y a j n :
  tally pred y a j (S n)
  = (tally pred y a j n
     + if decide (y !! n = Some a ∧ pred !! n = Some j) then 1 else 0)%nat.
Proof.
  unfold tally. rewrite seq_S, filter_app, length_app. simpl.
  rewrite list.filter_singleton by exact [].
  by destruct (decide _).
Qed.

Lemma tally_le pred y a j n : (tally pred y a j n ≤ n)%nat.
Proof.
  unfold tally. etrans; [apply length_filter|]. by rewrite length_seq.
Qed.

(** The loop of [confusion_matrix] after [n] samples. *)
Lemma confusion_loop (x pred y : list Z) (cn n : nat) :
  (n ≤ length y)%nat → Z.of_nat n < 2 ^ 63 → x = Torch.arange cn →
  foldl (λ acc i, cm ← acc;
                  cm_slice ← cm_slice x pred y i;
                  Some (Torch.add cm cm_slice))
        (Some (Torch.zeros cn cn)) (seq 0 n)
  = Some (matrix_of x (λ a j, Z.of_nat (tally pred y a j n))).
Proof.
  intros Hn Hb ->. induction n as [|n IH].
  - simpl. by rewrite zeros_matrix_of.
  - rewrite seq_S, foldl_snoc, IH by lia. simpl.
    rewrite cm_slice_indicator by lia. simpl.
    rewrite add_matrix_of. f_equal.
    apply list_fmap_ext. intros _ a _.
    apply list_fmap_ext. intros _ j _.
    rewrite tally_S. pose proof (tally_le pred y a j n).
    rewrite wrap64_small; destruct (decide _); lia.
Qed.

Lemma Zsum_app l k : Zsum (l ++ k) = Zsum l + Zsum k.
Proof. unfold Zsum. induction l; simpl; lia. Qed.

Lemma Zsum_fmap_add {A} (f g : A → Z) (l : list A) :
  Zsum ((λ v, f v + g v) <$> l) = Zsum (f <$> l) + Zsum (g <$> l).
Proof. unfold Zsum. induction l; csimpl; lia. Qed.

Lemma Zsum_fmap_zero {A} (l : list A) : Zsum ((λ _, 0) <$> l) = 0.
Proof. unfold Zsum. induction l; csimpl; lia. Qed.

Lemma arange_S n : Torch.arange (S n) = Torch.arange n ++ [Z.of_nat n].
Proof. unfold Torch.arange. by rewrite seq_S, fmap_app. Qed.

Lemma arange_lookup n (i : nat) :
  (i < n)%nat → Torch.arange n !! i = Some (Z.of_nat i).
Proof.
  intros Hi. unfold Torch.arange.
  by rewrite list_lookup_fmap, lookup_seq_lt.
Qed.

(** A label is counted once over the classes when it is one of them, and
    not at all otherwise. *)
Lemma indicator_sum (p : Z) (n : nat) :
  Zsum ((λ j, if decide (p = j) then 1 else 0) <$> Torch.arange n)
  = if decide (0 ≤ p < Z.of_nat n) then 1 else 0.
Proof.
  induction n as [|n IH].
  - simpl. case_decide; [lia|done].
  - rewrite arange_S, fmap_app, Zsum_app, IH. cbn.
    repeat case_decide; lia.
Qed.

Lemma row_tally (pred y : list Z) (a : Z) (cn n : nat) :
  (n ≤ length pred)%nat → in_classes cn pred →
  Zsum ((λ j, Z.of_nat (tally pred y a j n)) <$> Torch.arange cn)
  = Z.of_nat (class_count (take n y) a).
Proof.
  intros Hn Hp. induction n as [|n IH].
  - unfold tally, class_count. rewrite take_0. simpl. apply Zsum_fmap_zero.
  - assert (is_Some (pred !! n)) as [p Hpn] by (apply lookup_lt_is_Some; lia).
    assert (0 ≤ p < Z.of_nat cn) as Hpr
      by (eapply (Forall_lookup_1 _ _ _ _ Hp); eauto).
    erewrite list_fmap_ext.
    2:{ intros _ j _. rewrite tally_S, Nat2Z.inj_add. reflexivity. }
    rewrite (Zsum_fmap_add (λ j, Z.of_nat (tally pred y a j n))), IH by lia.
    destruct (y !! n) as [t|] eqn:Hy.
    + rewrite (take_S_r _ _ _ Hy). unfold class_count at 2.
      rewrite filter_app, length_app, Nat2Z.inj_add. f_equal.
      rewrite list.filter_singleton by exact [].
      erewrite list_fmap_ext.
      2:{ intros _ j _.
          instantiate (1 := λ j, if decide (t = a)
                                 then (if decide (p = j) then 1 else 0)
                                 else 0).
          simpl. rewrite Hpn.
          repeat case_decide; try done; exfalso; subst; intuition congruence. }
      destruct (decide (t = a)).
      * rewrite indicator_sum. by case_decide.
      * apply Zsum_fmap_zero.
    + apply lookup_ge_None in Hy.
      rewrite (take_ge y n), (take_ge y (S n)) by lia.
      rewrite (list_fmap_ext _ (λ _ : Z, 0) (Torch.arange cn)).
      2:{ intros _ j _. rewrite decide_False; [done|]. by intros [? ?]. }
      rewrite Zsum_fmap_zero. lia.
Qed.

Lemma col_tally (pred y : list Z) (j : Z) (cn n : nat) :
  (n ≤ length y)%nat → in_classes cn y →
  Zsum ((λ a, Z.of_nat (tally pred y a j n)) <$> Torch.arange cn)
  = Z.of_nat (class_count (take n pred) j).
Proof.
  intros Hn Hp. induction n as [|n IH].
  - unfold tally, class_count. rewrite take_0. simpl. apply Zsum_fmap_zero.
  - assert (is_Some (y !! n)) as [t Hyn] by (apply lookup_lt_is_Some; lia).
    assert (0 ≤ t < Z.of_nat cn) as Hpr
      by (eapply (Forall_lookup_1 _ _ _ _ Hp); eauto).
    erewrite list_fmap_ext.
    2:{ intros _ a _. rewrite tally_S, Nat2Z.inj_add. reflexivity. }
    rewrite (Zsum_fmap_add (λ a, Z.of_nat (tally pred y a j n))), IH by lia.
    destruct (pred !! n) as [p|] eqn:Hy.
    + rewrite (take_S_r _ _ _ Hy). unfold class_count at 2.
      rewrite filter_app, length_app, Nat2Z.inj_add. f_equal.
      rewrite list.filter_singleton by exact [].
      erewrite list_fmap_ext.
      2:{ intros _ a _.
          instantiate (1 := λ a, if decide (p = j)
                                 then (if decide (t = a) then 1 else 0)
                                 else 0).
          simpl. rewrite Hyn.
          repeat case_decide; try done; exfalso; subst; intuition congruence. }
      destruct (decide (p = j)).
      * rewrite indicator_sum. by case_decide.
      * apply Zsum_fmap_zero.
    + apply lookup_ge_None in Hy.
      rewrite (take_ge pred n), (take_ge pred (S n)) by lia.
      rewrite (list_fmap_ext _ (λ _ : Z, 0) (Torch.arange cn)).
      2:{ intros _ a _. rewrite decide_False; [done|]. by intros [? ?]. }
      rewrite Zsum_fmap_zero. lia.
Qed.

End TensorFacts.

Section Interpretation.
Context `{FW : Framework}.

Lemma init_fields d pr y lo self :
  ClassificationInterpretation_init d pr y lo = Some self →
  ci_data self = d ∧ probs self = pr ∧ y_true self = y ∧ losses self = lo
  ∧ argmax_dim1 pr = Some (pred_class self).
Proof.
  unfold ClassificationInterpretation_init.
  destruct (argmax_dim1 pr) as [pc|]; [|done].
  simpl. by intros [= <-].
Qed.

(** The matrix returned by [confusion_matrix], in closed form. *)
Lemma confusion_matrix_closed (self : ClassificationInterpretation) :
  Z.of_nat (length (y_true self)) < 2 ^ 63 →
  confusion_matrix self
  = Some ((λ a, (λ j, Z.of_nat (tally (pred_class self) (y_true self) a j
                                  (length (y_true self))))
                <$> Torch.arange (c (ci_data self)))
          <$> Torch.arange (c (ci_data self))).
Proof.
  intros Hb. unfold confusion_matrix. by apply confusion_loop.
Qed.

Lemma arange_length n : length (Torch.arange n) = n.
Proof. unfold Torch.arange. by rewrite length_fmap, length_seq. Qed.

(** C2: the matrix is the contingency table of true label against argmax
    prediction.  For an interpretation built by [__init__] over fewer than
    2^63 samples, [confusion_matrix] returns a [c] by [c] matrix whose cell
    [(i, j)] is the number of sample indices [k] with [y_true[k] == i] and
    [pred_class[k] == j], where [pred_class] is [probs.argmax(dim=1)]. *)
Theorem confusion_matrix_contingency d pr y lo self :
  ClassificationInterpretation_init d pr y lo = Some self →
  Z.of_nat (length (y_true self)) < 2 ^ 63 →
  argmax_dim1 (probs self) = Some (pred_class self) ∧
  ∃ cm, confusion_matrix self = Some cm
    ∧ length cm = c (ci_data self)
    ∧ Forall (λ row, length row = c (ci_data self)) cm
    ∧ ∀ i j : nat, (i < c (ci_data self))%nat → (j < c (ci_data self))%nat →
        cm !! i ≫= (.!! j)
        = Some (Z.of_nat (tally (pred_class self) (y_true self)
                            (Z.of_nat i) (Z.of_nat j)
                            (length (y_true self)))).
Proof.
  intros Hinit Hb.
  destruct (init_fields _ _ _ _ _ Hinit) as (_ & -> & _ & _ & Harg).
  split; [done|].
  eexists. split; [by apply confusion_matrix_closed|].
  split; [by rewrite length_fmap, arange_length|].
  split.
  - apply Forall_fmap, Forall_forall. intros a _. simpl.
    by rewrite length_fmap, arange_length.
  - intros i j Hi Hj.
    rewrite list_lookup_fmap, arange_lookup by done. simpl.
    by rewrite list_lookup_fmap, arange_lookup.
Qed.

(** C1, as amended: row and column sums are class counts.  When there is
    one prediction for every true label, all of them among the classes
    [0..c-1], row [i] of the matrix sums to the number of samples whose true
    label is [i] and column [i] to the number of samples predicted as
    [i]. *)
Theorem confusion_matrix_sums d pr y lo self :
  ClassificationInterpretation_init d pr y lo = Some self →
  length (pred_class self) = length (y_true self) →
  Z.of_nat (length (y_true self)) < 2 ^ 63 →
  in_classes (c (ci_data self)) (y_true self) →
  in_classes (c (ci_data self)) (pred_class self) →
  argmax_dim1 (probs self) = Some (pred_class self) ∧
  ∃ cm, confusion_matrix self = Some cm
    ∧ length cm = c (ci_data self)
    ∧ Forall (λ row, length row = c (ci_data self)) cm
    ∧ ∀ i : nat, (i < c (ci_data self))%nat →
        row_sum cm i = Z.of_nat (class_count (y_true self) (Z.of_nat i))
        ∧ col_sum cm i
          = Z.of_nat (class_count (pred_class self) (Z.of_nat i)).
Proof.
  intros Hinit Hlen Hb Hy Hp.
  destruct (init_fields _ _ _ _ _ Hinit) as (_ & -> & _ & _ & Harg).
  split; [done|].
  eexists. split; [by apply confusion_matrix_closed|].
  split; [by rewrite length_fmap, arange_length|].
  split.
  { apply Forall_fmap, Forall_forall. intros a _. simpl.
    by rewrite length_fmap, arange_length. }
  intros i Hi. split.
  - unfold row_sum.
    rewrite list_lookup_fmap, arange_lookup by done. simpl.
    rewrite row_tally by (done || lia). by rewrite firstn_all.
  - unfold col_sum.
    erewrite fmap_fmap_ext.
    2:{ intros a. rewrite list_lookup_fmap, arange_lookup by done.
        simpl. reflexivity. }
    rewrite col_tally by (done || lia).
    by rewrite <- Hlen, firstn_all.
Qed.

(** *** [most_confused] above a threshold that is not negative *)

Lemma where_gt_elem (cm : list (list Z)) (mv : Z) (i j : nat) :
  (i, j) ∈ where_gt cm mv ↔ ∃ v, cm !! i ≫= (.!! j) = Some v ∧ mv < v.
Proof.
  unfold where_gt. rewrite list_elem_of_join. split.
  - intros (l & Hin & Hl).
    apply list_elem_of_lookup in Hl as [i' Hl].
    rewrite list_lookup_imap in Hl.
    destruct (cm !! i') as [row|] eqn:Hrow; [|done].
    injection Hl as <-.
    apply list_elem_of_omap in Hin as (x & Hx & Hid).
    simpl in Hid; subst x.
    apply list_elem_of_lookup in Hx as [j' Hx].
    rewrite list_lookup_imap in Hx.
    destruct (row !! j') as [v|] eqn:Hv; [|done].
    simpl in Hx. case_decide; [|done]. injection Hx as <- <-.
    exists v. rewrite Hrow. simpl. by rewrite Hv.
  - intros (v & Hv & Hgt).
    destruct (cm !! i) as [row|] eqn:Hrow; [|done]. simpl in Hv.
    exists (omap id (imap (λ j v, if decide (mv < v)
                                  then Some (i, j) else None) row)).
    split.
    + apply list_elem_of_omap. exists (Some (i, j)). split; [|done].
      apply list_elem_of_lookup. exists j.
      rewrite list_lookup_imap, Hv. simpl. by rewrite decide_True.
    + apply list_elem_of_lookup. exists i.
      by rewrite list_lookup_imap, Hrow.
Qed.

Lemma fill_diagonal_cell (cm : list (list Z)) (i j : nat) :
  fill_diagonal cm 0 !! i ≫= (.!! j)
  = if decide (i = j) then (λ _, 0) <$> (cm !! i ≫= (.!! j))
    else cm !! i ≫= (.!! j).
Proof.
  unfold fill_diagonal. rewrite list_lookup_imap.
  destruct (cm !! i) as [row|]; simpl; [|by case_decide].
  rewrite list_lookup_insert.
  destruct (decide (i = j)) as [->|Hne].
  - case_decide as Hd.
    + destruct (lookup_lt_is_Some_2 row j) as [v ->]; [lia|done].
    + rewrite (lookup_ge_None_2 row j) by lia. done.
  - rewrite decide_False by lia. done.
Qed.

Lemma mapM_total_on {A B} (f : A → option B) (h : A → B) (l : list A) :
  (∀ x, x ∈ l → f x = Some (h x)) → mapM f l = Some (h <$> l).
Proof.
  intros Hf. induction l as [|x l IH]; [done|].
  cbn. rewrite Hf by (apply elem_of_cons; by left). cbn.
  fold (mapM f l). rewrite IH; [done|].
  intros y Hy. apply Hf. apply elem_of_cons. by right.
Qed.

Lemma insert_desc_perm t l : insert_desc t l ≡ₚ t :: l.
Proof.
  induction l as [|u l IH]; simpl; [done|].
  case_decide; [|done]. rewrite IH. apply perm_swap.
Qed.

Lemma sorted_desc_perm l : sorted_desc l ≡ₚ l.
Proof.
  induction l as [|t l IH]; simpl; [done|].
  rewrite insert_desc_perm. by rewrite IH.
Qed.

Lemma insert_desc_sorted t l :
  StronglySorted (λ a b : Z * Z * Z, b.2 ≤ a.2) l →
  StronglySorted (λ a b : Z * Z * Z, b.2 ≤ a.2) (insert_desc t l).
Proof.
  induction 1 as [|u l Hl IH Hu]; simpl.
  - repeat constructor.
  - case_decide.
    + constructor; [done|].
      rewrite insert_desc_perm. constructor; [lia|done].
    + constructor; [by constructor|].
      constructor; [lia|].
      eapply Forall_impl; [done|]. simpl. intros; lia.
Qed.

Lemma sorted_desc_sorted l :
  StronglySorted (λ a b : Z * Z * Z, b.2 ≤ a.2) (sorted_desc l).
Proof.
  induction l; simpl; [constructor|]. by apply insert_desc_sorted.
Qed.

(** With [min_val >= 0] the result of [most_confused] is what its
    docstring says: the cells off the diagonal that are above [min_val],
    with their indices, in descending order of count. *)
Lemma most_confused_off_diagonal (self : ClassificationInterpretation)
    (min_val : Z) :
  Z.of_nat (length (y_true self)) < 2 ^ 63 →
  0 ≤ min_val →
  ∃ cm res,
    confusion_matrix self = Some cm
    ∧ most_confused self min_val = Some res
    ∧ StronglySorted (λ a b : Z * Z * Z, b.2 ≤ a.2) res
    ∧ ∀ i j v,
        (i, j, v) ∈ res
        ↔ ∃ i' j' : nat,
            i = Z.of_nat i' ∧ j = Z.of_nat j' ∧ i' ≠ j'
            ∧ cm !! i' ≫= (.!! j') = Some v ∧ min_val < v.
Proof.
  intros Hb Hmv.
  pose proof (confusion_matrix_closed self Hb) as Hcm.
  set (cm := (λ a, _ <$> _) <$> _) in Hcm.
  assert (length cm = c (ci_data self)) as Hrows
    by (unfold cm; by rewrite length_fmap, arange_length).
  set (M := fill_diagonal cm 0).
  set (h := λ p : nat * nat,
         (Z.of_nat p.1, Z.of_nat p.2, default 0 (M !! p.1 ≫= (.!! p.2)))).
  exists cm, (sorted_desc (h <$> where_gt M min_val)).
  split; [done|]. split; [|split].
  - unfold most_confused. rewrite Hcm. simpl. fold M.
    rewrite (mapM_total_on _ h); [done|].
    intros [i j] Hij. apply where_gt_elem in Hij as (v & Hv & _).
    unfold h; simpl. rewrite Hv. simpl.
    assert (i < c (ci_data self) ∧ j < c (ci_data self))%nat as [Hi Hj].
    { unfold M in Hv. rewrite fill_diagonal_cell in Hv.
      assert (is_Some (cm !! i ≫= (.!! j))) as [u Hu]
        by (case_decide; [destruct (cm !! i ≫= (.!! j)); [eauto|done]|eauto]).
      unfold cm in Hu. rewrite list_lookup_fmap in Hu.
      destruct (Torch.arange (c (ci_data self)) !! i) as [a|] eqn:Ha;
        [|done].
      simpl in Hu. rewrite list_lookup_fmap in Hu.
      destruct (Torch.arange (c (ci_data self)) !! j) as [a'|] eqn:Ha';
        [|done].
      apply lookup_lt_Some in Ha, Ha'. by rewrite arange_length in Ha, Ha'. }
    unfold range_get. by rewrite !decide_True.
  - apply sorted_desc_sorted.
  - intros i j v. rewrite sorted_desc_perm, list_elem_of_fmap. split.
    + intros ([i' j'] & Heq & Hin). unfold h in Heq. simpl in Heq.
      injection Heq as -> -> ->.
      apply where_gt_elem in Hin as (v & Hv & Hgt). rewrite Hv. simpl.
      unfold M in Hv. rewrite fill_diagonal_cell in Hv.
      exists i', j'. case_decide as Hd.
      * destruct (cm !! i' ≫= (.!! j')); [|done].
        simpl in Hv. injection Hv as <-. lia.
      * done.
    + intros (i' & j' & -> & -> & Hne & Hv & Hgt).
      exists (i', j'). split.
      * unfold h. simpl. do 2 f_equal. unfold M.
        rewrite fill_diagonal_cell, decide_False, Hv by done. done.
      * apply where_gt_elem. exists v. split; [|done].
        unfold M. by rewrite fill_diagonal_cell, decide_False.
Qed.

End Interpretation.

Section Attach.
Context `{FW : Framework} `{BT : !BasicTrain}.

(** Running the store monad by hand. *)
Lemma run_bind {A B} (m : M A) (f : A → M B) w :
  (m ≫= f) w = match m w with Some (a, w') => f a w' | None => None end.
Proof. reflexivity. Qed.

Lemma run_get_learner r w l :
  learners w !! r = Some l → get_learner r w = Some (l, w).
Proof. intros H. unfold get_learner. by rewrite H. Qed.

Lemma run_modify_learner r f w l :
  learners w !! r = Some l →
  modify_learner r f w
  = Some (tt, {| learners := <[r := f l]> (learners w);
                 objects := objects w; calls := calls w |}).
Proof.
  intros H. unfold modify_learner.
  by rewrite run_bind, (run_get_learner _ _ _ H).
Qed.

Lemma run_new cb w :
  new cb w
  = Some (fresh (dom (objects w)),
          {| learners := learners w;
             objects := <[fresh (dom (objects w)) := cb]> (objects w);
             calls := calls w |}).
Proof. reflexivity. Qed.

Lemma new_is_fresh w : objects w !! fresh (dom (objects w)) = None.
Proof. apply not_elem_of_dom, is_fresh. Qed.

Lemma run_new_LearnerCallback name learn cb w l :
  learners w !! learn = Some l →
  new_LearnerCallback name learn cb w
  = Some (fresh (dom (objects w)),
          {| learners :=
               <[learn := registered name (fresh (dom (objects w))) l]>
                 (learners w);
             objects := <[fresh (dom (objects w)) := cb]> (objects w);
             calls := calls w |}).
Proof.
  intros H. unfold new_LearnerCallback.
  rewrite run_bind, run_new, run_bind.
  by erewrite run_modify_learner by exact H.
Qed.

Ltac find_learner :=
  simpl; first [eassumption | apply lookup_insert_eq].

Ltac run_store :=
  repeat first
    [ rewrite run_bind
    | erewrite run_new_LearnerCallback by find_learner
    | erewrite run_modify_learner by find_learner
    | erewrite run_get_learner by find_learner
    | progress simpl ].

Lemma mixup_run learn alpha stack_x stack_y w l :
  learners w !! learn = Some l →
  mixup learn alpha stack_x stack_y w
  = Some (learn,
          {| learners :=
               <[learn :=
                   {| model := model l; data := data l;
                      loss_func := if stack_y then MixUpLoss (loss_func l)
                                   else loss_func l;
                      callback_fns :=
                        callback_fns l ++
                        [partial class_MixUpCallback
                           [("alpha"%string, PyFloat alpha);
                            ("stack_x"%string, PyBool stack_x);
                            ("stack_y"%string, PyBool stack_y)]];
                      callbacks := callbacks l; mp_cb := mp_cb l;
                      rest := rest l |}]> (learners w);
             objects := objects w; calls := calls w |}).
Proof.
  intros Hl. unfold mixup. destruct stack_y.
  - run_store. unfold mret, M_ret. do 2 f_equal.
    unfold set_callback_fns, set_loss_func; simpl.
    by rewrite insert_insert_eq.
  - run_store. unfold mret, M_ret. simpl. run_store. done.
Qed.

Lemma to_fp16_run learn loss_scale flat_master w l :
  learners w !! learn = Some l →
  to_fp16 learn loss_scale flat_master w
  = Some (learn,
          {| learners :=
               <[learn :=
                   {| model := model2half (model l); data := data l;
                      loss_func := loss_func l;
                      callback_fns := callback_fns l;
                      callbacks := callbacks l ++ [fresh (dom (objects w))];
                      mp_cb := Obj (fresh (dom (objects w)));
                      rest := LearnerCallback_init "MixedPrecision"
                                (fresh (dom (objects w))) (rest l) |}]>
                 (learners w);
             objects := <[fresh (dom (objects w)) :=
                            MixedPrecision learn loss_scale flat_master]>
                          (objects w);
             calls := calls w |}).
Proof.
  intros Hl. unfold to_fp16. run_store.
  unfold mret, M_ret. do 2 f_equal.
  unfold set_callbacks, set_mp_cb, set_model, registered, set_rest; simpl.
  by rewrite !insert_insert_eq.
Qed.

Lemma clip_grad_run learn clip w l :
  learners w !! learn = Some l →
  clip_grad learn clip w
  = Some (learn,
          {| learners :=
               <[learn :=
                   {| model := model l; data := data l;
                      loss_func := loss_func l;
                      callback_fns :=
                        callback_fns l ++
                        [partial class_GradientClipping
                           [("clip"%string, PyFloat clip)]];
                      callbacks := callbacks l; mp_cb := mp_cb l;
                      rest := rest l |}]> (learners w);
             objects := objects w; calls := calls w |}).
Proof. intros Hl. unfold clip_grad. run_store. done. Qed.

(** The loop of [to_fp32] never raises: the callback it removes is in the
    list. *)
Lemma py_remove_None x l : py_remove x l = None → x ∉ l.
Proof.
  induction l as [|y l IH]; simpl; [intros _; apply not_elem_of_nil|].
  case_decide; [done|].
  destruct (py_remove x l); [done|]. intros _.
  apply not_elem_of_cons. split; [done|]. by apply IH.
Qed.

Lemma py_remove_sublist x l l' : py_remove x l = Some l' → sublist l' l.
Proof.
  revert l'. induction l as [|y l IH]; intros l'; simpl; [done|].
  case_decide.
  - intros [= ->]. by apply sublist_cons.
  - destruct (py_remove x l) as [k|]; [|done]. simpl. intros [= <-].
    apply sublist_skip. by apply IH.
Qed.

Lemma for_remove_total P l i :
  ∃ l', for_remove P l i = Some l' ∧ sublist l' l.
Proof.
  funelim (for_remove P l i).
  - eauto.
  - assumption.
  - match goal with
    | IH : context [for_remove _ _ (S _) = Some _] |- _ =>
        destruct IH as (k & Hk & Hsub)
    end.
    exists k. split; [exact Hk|]. etrans; [exact Hsub|].
    eapply py_remove_sublist; eassumption.
  - exfalso.
    match goal with
    | e : py_remove _ _ = None |- _ => apply (py_remove_None _ _ e)
    end.
    eapply list_elem_of_lookup_2; eassumption.
Qed.

Lemma for_remove_step P l i :
  for_remove P l i
  = match l !! i with
    | None => Some l
    | Some cb => if P cb then l' ← py_remove cb l; for_remove P l' (S i)
                 else for_remove P l (S i)
    end.
Proof.
  funelim (for_remove P l i);
    repeat match goal with
           | E : _ !! _ = _ |- _ => rewrite E
           | E : P _ = _ |- _ => rewrite E
           | E : py_remove _ _ = _ |- _ => rewrite E
           end; reflexivity.
Qed.

Lemma py_remove_middle x pre suf :
  x ∉ pre → py_remove x (pre ++ x :: suf) = Some (pre ++ suf).
Proof.
  induction pre as [|y pre IH]; simpl; intros Hx.
  - by rewrite decide_True.
  - apply not_elem_of_cons in Hx as [Hne Hx].
    rewrite decide_False by done. by rewrite IH.
Qed.

(** Where the loop of [to_fp32] does its job: on a list without repeated
    objects in which no two callbacks to remove stand next to each other,
    all of them are removed. *)
Lemma for_remove_apart P pre suf :
  NoDup (pre ++ suf) →
  (∀ i x y, suf !! i = Some x → suf !! S i = Some y →
            P x = true → P y = false) →
  for_remove P (pre ++ suf) (length pre)
  = Some (pre ++ filter (λ x, P x = false) suf).
Proof.
  remember (length suf) as n eqn:Hn. revert pre suf Hn.
  induction n as [n IH] using lt_wf_ind. intros pre suf -> Hnd Hadj.
  rewrite for_remove_step.
  destruct suf as [|x suf].
  - rewrite lookup_ge_None_2 by (rewrite length_app; simpl; lia). done.
  - rewrite lookup_app_r, Nat.sub_diag by lia. simpl.
    destruct (P x) eqn:Hx.
    + rewrite py_remove_middle.
      2:{ apply NoDup_app in Hnd as (_ & Hnd & _). intros Hin.
          apply (Hnd x Hin). apply elem_of_cons. by left. }
      simpl. rewrite filter_cons_False by (rewrite Hx; done).
      destruct suf as [|y suf].
      * rewrite for_remove_step.
        rewrite lookup_ge_None_2 by (rewrite length_app; simpl; lia). done.
      * assert (P y = false) as Hy by (by apply (Hadj 0%nat x y)).
        rewrite filter_cons_True by done.
        replace (pre ++ y :: suf) with ((pre ++ [y]) ++ suf)
          by (by rewrite <- app_assoc).
        replace (S (length pre)) with (length (pre ++ [y]))
          by (rewrite length_app; simpl; lia).
        rewrite (IH (length suf)); [by rewrite <- app_assoc|simpl; lia|done| |].
        -- rewrite <- Permutation_middle in Hnd.
           apply NoDup_cons in Hnd as [_ Hnd]. by rewrite <- app_assoc.
        -- intros i u v Hu Hv. by apply (Hadj (S (S i))).
    + rewrite filter_cons_True by done.
      replace (pre ++ x :: suf) with ((pre ++ [x]) ++ suf)
        by (by rewrite <- app_assoc).
      replace (S (length pre)) with (length (pre ++ [x]))
        by (rewrite length_app; simpl; lia).
      rewrite (IH (length suf)); [by rewrite <- app_assoc|simpl; lia|done| |].
      * by rewrite <- app_assoc.
      * intros i u v Hu Hv. by apply (Hadj (S i)).
Qed.

Lemma py_remove_keeps (P : loc → bool) x l l' :
  py_remove x l = Some l' → P x = true →
  filter (λ y, P y = false) l' = filter (λ y, P y = false) l.
Proof.
  intros Hrm Hx. revert l' Hrm.
  induction l as [|y l IH]; intros l'; simpl; [done|].
  case_decide as Hy.
  - intros [= ->]. subst y.
    by rewrite filter_cons_False by (rewrite Hx; done).
  - destruct (py_remove x l) as [k|]; [|done]. simpl. intros [= <-].
    rewrite !(filter_cons _ y). by rewrite (IH k).
Qed.

(** The loop of [to_fp32] only ever drops elements that pass the test. *)
Lemma for_remove_keeps (P : loc → bool) l i l' :
  for_remove P l i = Some l' →
  filter (λ y, P y = false) l' = filter (λ y, P y = false) l.
Proof.
  revert l'. funelim (for_remove P l i); intros k Hk.
  - by injection Hk as <-.
  - eauto.
  - match goal with
    | IH : ∀ _, for_remove _ _ (S _) = Some _ → _ |- _ => rewrite (IH k Hk)
    end.
    eapply py_remove_keeps; eassumption.
  - done.
Qed.


Lemma to_fp32_run learn w l d tr va te :
  learners w !! learn = Some l →
  train_dl (data l) = Obj d → remove_tfm d batch_to_half = Some tr →
  remove_half_if_present (valid_dl (data l)) = Some va →
  remove_half_if_present (test_dl (data l)) = Some te →
  ∃ cbs,
    for_remove (λ cb, match objects w !! cb with
                      | Some o => isinstance_MixedPrecision o
                      | None => false
                      end) (callbacks l) 0 = Some cbs
    ∧ sublist cbs (callbacks l)
    ∧ to_fp32 learn w
      = Some (learn,
              {| learners :=
                   <[learn :=
                       {| model := Module_float (model l);
                          data := {| train_dl := Obj tr; valid_dl := va;
                                     test_dl := te; c := c (data l) |};
                          loss_func := loss_func l;
                          callback_fns := callback_fns l;
                          callbacks := cbs; mp_cb := mp_cb l;
                          rest := rest l |}]> (learners w);
                 objects := objects w; calls := calls w |}).
Proof.
  intros Hl Hd Htr Hva Hte.
  destruct (for_remove_total
              (λ cb, match objects w !! cb with
                     | Some o => isinstance_MixedPrecision o
                     | None => false
                     end) (callbacks l) 0) as (cbs & Hcbs & Hsub).
  exists cbs. split; [done|]. split; [done|].
  unfold to_fp32. rewrite Hl. simpl. rewrite Hd, Htr. simpl.
  rewrite Hva. simpl. rewrite Hte. simpl. rewrite Hcbs. done.
Qed.

(** C3: [mixup] swaps the loss function when [stack_y] holds and leaves it
    alone otherwise, and appends one [MixUpCallback] factory to
    [callback_fns]; no other field of the learner changes, and neither do
    the other learners, the callback objects or the calls made so far. *)
Theorem mixup_effect learn alpha stack_x stack_y w l :
  learners w !! learn = Some l →
  ∃ w' l',
    mixup learn alpha stack_x stack_y w = Some (learn, w')
    ∧ learners w' = <[learn := l']> (learners w)
    ∧ objects w' = objects w ∧ calls w' = calls w
    ∧ loss_func l' = (if stack_y then MixUpLoss (loss_func l)
                      else loss_func l)
    ∧ callback_fns l'
      = callback_fns l ++
        [partial class_MixUpCallback
           [("alpha"%string, PyFloat alpha);
            ("stack_x"%string, PyBool stack_x);
            ("stack_y"%string, PyBool stack_y)]]
    ∧ model l' = model l ∧ data l' = data l
    ∧ callbacks l' = callbacks l ∧ mp_cb l' = mp_cb l ∧ rest l' = rest l.
Proof.
  intros Hl. do 2 eexists.
  rewrite (mixup_run _ _ _ _ _ _ Hl). split; [done|]. simpl. done.
Qed.

(** [to_fp32] does not need the validation and test loaders. *)
Lemma to_fp32_optional_loaders learn w l d tr :
  learners w !! learn = Some l →
  train_dl (data l) = Obj d → remove_tfm d batch_to_half = Some tr →
  valid_dl (data l) = Missing ∨ valid_dl (data l) = IsNone →
  test_dl (data l) = Missing ∨ test_dl (data l) = IsNone →
  ∃ w', to_fp32 learn w = Some (learn, w').
Proof.
  intros Hl Hd Htr Hva Hte.
  destruct (to_fp32_run learn w l d tr (valid_dl (data l))
              (test_dl (data l)) Hl Hd Htr) as (cbs & _ & _ & ->).
  - by destruct Hva as [-> | ->].
  - by destruct Hte as [-> | ->].
  - eauto.
Qed.


(** C5, as amended: [GradientClipping.__init__] builds a new object whose
    [clip] is the value given, and its base-class constructor registers
    that object on the learner; no other learner, no other object and no
    call is touched.  The factory that [mixup] appends holds the [alpha]
    given under the keyword [alpha]. *)
Theorem callback_configuration_stored learn w l :
  learners w !! learn = Some l →
  (∀ clip, ∃ self w',
      GradientClipping_init learn clip w = Some (self, w')
      ∧ objects w !! self = None
      ∧ objects w' = <[self := GradientClipping learn clip]> (objects w)
      ∧ objects w' !! self ≫= GradientClipping_clip = Some clip
      ∧ learners w'
        = <[learn := set_rest (LearnerCallback_init "GradientClipping" self
                                 (rest l)) l]> (learners w)
      ∧ calls w' = calls w)
  ∧ (∀ alpha stack_x stack_y, ∃ w' l' kw,
       mixup learn alpha stack_x stack_y w = Some (learn, w')
       ∧ learners w' !! learn = Some l'
       ∧ last (callback_fns l') = Some (partial class_MixUpCallback kw)
       ∧ kwarg "alpha" kw = Some (PyFloat alpha)
       ∧ kw = [("alpha"%string, PyFloat alpha);
               ("stack_x"%string, PyBool stack_x);
               ("stack_y"%string, PyBool stack_y)]
       ∧ objects w' = objects w).
Proof.
  intros Hl. split.
  - intros clip. do 2 eexists.
    unfold GradientClipping_init.
    rewrite (run_new_LearnerCallback _ _ _ _ _ Hl).
    split; [done|]. split; [apply new_is_fresh|]. simpl.
    split; [done|]. by rewrite lookup_insert_eq.
  - intros alpha sx sy. do 3 eexists.
    rewrite (mixup_run _ _ _ _ _ _ Hl). split; [done|]. simpl.
    rewrite lookup_insert_eq. split; [done|]. simpl.
    rewrite last_snoc. done.
Qed.

(** C6: [fit_one_cycle] resolves [max_lr], builds one new
    [OneCycleScheduler] and calls [learn.fit] once, with [cyc_len] epochs,
    the resolved rate and the listified callbacks followed by the
    scheduler. *)
Theorem fit_one_cycle_delegates learn cyc_len max_lr moms div_factor
    pct_start wd callbacks kwargs w l :
  learners w !! learn = Some l →
  ∃ sched w',
    fit_one_cycle learn cyc_len max_lr moms div_factor pct_start wd
      callbacks kwargs w = Some (tt, w')
    ∧ objects w !! sched = None
    ∧ objects w'
      = <[sched := OneCycleScheduler learn (lr_range l max_lr) moms
                     div_factor pct_start kwargs]> (objects w)
    ∧ calls w'
      = calls w ++ [call_fit learn cyc_len (lr_range l max_lr) wd
                      (listify callbacks ++ [sched]) None].
Proof.
  intros Hl. exists (fresh (dom (objects w))). eexists.
  unfold fit_one_cycle, Learner_fit, record_call. run_store.
  split; [done|]. split; [apply new_is_fresh|]. done.
Qed.

(** C7: [on_backward_end] clips when [clip] is not zero and does nothing
    when it is.  With a non-zero [clip] the gradients of the learner's
    model go through one [clip_grad_norm_] with [clip] as the bound; with a
    zero [clip] the store is left as it was and no call is made. *)
Theorem on_backward_end_clips self learn clip w l :
  objects w !! self = Some (GradientClipping learn clip) →
  learners w !! learn = Some l →
  ((∀ s, clip ≠ S754_zero s) →
   on_backward_end self w
   = Some (tt, {| learners :=
                    <[learn := set_model (clip_grad_norm_ (model l) clip) l]>
                      (learners w);
                  objects := objects w;
                  calls := calls w ++ [call_clip_grad_norm_ learn clip] |}))
  ∧ ((∃ s, clip = S754_zero s) → on_backward_end self w = Some (tt, w)).
Proof.
  intros Hself Hl. unfold on_backward_end. rewrite Hself. split.
  - intros Hnz. destruct clip as [s| | |]; simpl;
      [by destruct (Hnz s)|..]; unfold record_call; run_store; done.
  - intros [s ->]. done.
Qed.


End Attach.

(** * Further properties *)

(** ** The confusion matrix as a whole *)

Section MatrixTotals.
Context `{FW : Framework}.

Lemma Zsum_fmap_scale {A} (k : Z) (f : A → Z) (l : list A) :
  Zsum ((λ v, k * f v) <$> l) = k * Zsum (f <$> l).
Proof. unfold Zsum. induction l; csimpl; lia. Qed.

Lemma Zsum_fmap_ext {A} (f g : A → Z) (l : list A) :
  (∀ v, f v = g v) → Zsum (f <$> l) = Zsum (g <$> l).
Proof. intros Hfg. f_equal. apply list_fmap_ext. auto. Qed.

(** What sample [n] adds to row [a] of the matrix. *)
Lemma row_step (pred y : list Z) (a : Z) (cn n : nat) :
  Zsum ((λ j, Z.of_nat (if decide (y !! n = Some a ∧ pred !! n = Some j)
                        then 1 else 0)) <$> Torch.arange cn)
  = if decide (y !! n = Some a)
    then match pred !! n with
         | Some p => if in_range cn p then 1 else 0
         | None => 0
         end
    else 0.
Proof.
  destruct (decide (y !! n = Some a)) as [Hy|Hy].
  - destruct (pred !! n) as [p|] eqn:Hp.
    + rewrite (Zsum_fmap_ext _ (λ j, if decide (p = j) then 1 else 0)).
      * rewrite indicator_sum. unfold in_range.
        destruct (decide (0 ≤ p < Z.of_nat cn)).
        -- by rewrite bool_decide_true.
        -- by rewrite bool_decide_false.
      * intros j. repeat case_decide; try done; exfalso;
          subst; intuition congruence.
    + rewrite (Zsum_fmap_ext _ (λ _, 0)); [apply Zsum_fmap_zero|].
      intros j. rewrite decide_False; [done|]. by intros [_ ?].
  - rewrite (Zsum_fmap_ext _ (λ _, 0)); [apply Zsum_fmap_zero|].
    intros j. rewrite decide_False; [done|]. by intros [? _].
Qed.

Lemma pick_label (t k : Z) (cn : nat) :
  Zsum ((λ a, if decide (Some t = Some a) then k else 0) <$> Torch.arange cn)
  = if in_range cn t then k else 0.
Proof.
  rewrite (Zsum_fmap_ext _ (λ a, k * (if decide (t = a) then 1 else 0))).
  - rewrite Zsum_fmap_scale, indicator_sum. unfold in_range.
    destruct (decide (0 ≤ t < Z.of_nat cn)).
    + rewrite bool_decide_true by done. lia.
    + rewrite bool_decide_false by done. lia.
  - intros a. repeat case_decide; try lia; exfalso; subst;
      intuition congruence.
Qed.

(** The sum of all cells after [n] samples. *)
Lemma total_tally (pred y : list Z) (cn n : nat) :
  Zsum ((λ a, Zsum ((λ j, Z.of_nat (tally pred y a j n)) <$> Torch.arange cn))
        <$> Torch.arange cn)
  = Z.of_nat (length (filter (λ k, sample_counted cn pred y k = true)
                        (seq 0 n))).
Proof.
  induction n as [|n IH]; [simpl; rewrite (Zsum_fmap_ext _ (λ _, 0)); [apply Zsum_fmap_zero|]; intros a; apply Zsum_fmap_zero|].
  rewrite seq_S, filter_app, length_app, Nat2Z.inj_add, <- IH. simpl.
  rewrite list.filter_singleton by exact [].
  rewrite (Zsum_fmap_ext _
             (λ a, Zsum ((λ j, Z.of_nat (tally pred y a j n))
                         <$> Torch.arange cn)
                   + (if decide (y !! n = Some a)
                      then match pred !! n with
                           | Some p => if in_range cn p then 1 else 0
                           | None => 0
                           end
                      else 0))).
  2:{ intros a. rewrite <- row_step, <- Zsum_fmap_add.
      apply Zsum_fmap_ext. intros j. rewrite tally_S. lia. }
  rewrite Zsum_fmap_add. f_equal.
  unfold sample_counted.
  destruct (y !! n) as [t|].
  - rewrite pick_label.
    destruct (pred !! n) as [p|];
      [destruct (in_range cn t), (in_range cn p)|destruct (in_range cn t)];
      done.
  - rewrite (Zsum_fmap_ext _ (λ _, 0)); [by rewrite Zsum_fmap_zero|].
    intros a. by rewrite decide_False.
Qed.

(** The sum of the diagonal after [n] samples. *)
Lemma trace_tally (pred y : list Z) (cn n : nat) :
  Zsum ((λ a, Z.of_nat (tally pred y a a n)) <$> Torch.arange cn)
  = Z.of_nat (length (filter (λ k, sample_correct cn pred y k = true)
                        (seq 0 n))).
Proof.
  induction n as [|n IH]; [simpl; apply Zsum_fmap_zero|].
  rewrite seq_S, filter_app, length_app, Nat2Z.inj_add, <- IH. simpl.
  rewrite list.filter_singleton by exact [].
  rewrite (Zsum_fmap_ext _
             (λ a, Z.of_nat (tally pred y a a n)
                   + Z.of_nat (if decide (y !! n = Some a ∧ pred !! n = Some a)
                               then 1 else 0)))
    by (intros a; rewrite tally_S; lia).
  rewrite Zsum_fmap_add. f_equal.
  unfold sample_correct.
  destruct (y !! n) as [t|], (pred !! n) as [p|].
  - destruct (decide (t = p)) as [->|Hne].
    + rewrite bool_decide_true by done. simpl.
      rewrite (Zsum_fmap_ext _ (λ a, if decide (Some p = Some a)
                                     then 1 else 0)).
      * rewrite pick_label. by destruct (in_range cn p).
      * intros a. repeat case_decide; try done; exfalso; intuition.
    + rewrite bool_decide_false by done. simpl.
      rewrite (Zsum_fmap_ext _ (λ _, 0)); [by rewrite Zsum_fmap_zero|].
      intros a. rewrite decide_False; [done|]. intros [[= ->] [= ->]]. done.
  - rewrite (Zsum_fmap_ext _ (λ _, 0)); [by rewrite Zsum_fmap_zero|].
    intros a. rewrite decide_False; [done|]. by intros [_ ?].
  - rewrite (Zsum_fmap_ext _ (λ _, 0)); [by rewrite Zsum_fmap_zero|].
    intros a. rewrite decide_False; [done|]. by intros [? _].
  - rewrite (Zsum_fmap_ext _ (λ _, 0)); [by rewrite Zsum_fmap_zero|].
    intros a. rewrite decide_False; [done|]. by intros [? _].
Qed.

Lemma diagonal_of_matrix (f : Z → Z → Z) (cn : nat) :
  imap (λ i row, default 0 (row !! i))
    ((λ a, (λ j, f a j) <$> Torch.arange cn) <$> Torch.arange cn)
  = (λ a, f a a) <$> Torch.arange cn.
Proof.
  apply list_eq. intros i.
  rewrite list_lookup_imap, !list_lookup_fmap.
  destruct (decide (i < cn)%nat) as [Hi|Hi].
  - rewrite arange_lookup by done. simpl.
    by rewrite list_lookup_fmap, arange_lookup.
  - rewrite (lookup_ge_None_2 (Torch.arange cn) i); [done|].
    rewrite arange_length. lia.
Qed.

Lemma filter_all_length {A} (P : A → Prop) `{∀ x, Decision (P x)}
    (l : list A) :
  Forall P l → length (filter P l) = length l.
Proof.
  induction 1 as [|x l Hx Hl IH]; [done|].
  rewrite filter_cons_True by done. simpl. by rewrite IH.
Qed.

(** X1: the cells of the confusion matrix add up to the number of samples
    that have a true label and a prediction among the classes [0..c-1].  A
    sample with a label or a prediction outside the classes raises nothing
    and is counted nowhere; when every sample has both among the classes the
    cells add up to the number of samples. *)
Theorem confusion_matrix_total (self : ClassificationInterpretation) :
  Z.of_nat (length (y_true self)) < 2 ^ 63 →
  ∃ cm, confusion_matrix self = Some cm
    ∧ total cm
      = Z.of_nat (length (filter
                            (λ k, sample_counted (c (ci_data self))
                                    (pred_class self) (y_true self) k = true)
                            (seq 0 (length (y_true self)))))
    ∧ (length (pred_class self) = length (y_true self) →
       in_classes (c (ci_data self)) (y_true self) →
       in_classes (c (ci_data self)) (pred_class self) →
       total cm = Z.of_nat (length (y_true self))).
Proof.
  intros Hb. eexists. split; [by apply confusion_matrix_closed|].
  assert (∀ cn pred y n,
            total ((λ a, (λ j, Z.of_nat (tally pred y a j n))
                         <$> Torch.arange cn) <$> Torch.arange cn)
            = Z.of_nat (length (filter
                                  (λ k, sample_counted cn pred y k = true)
                                  (seq 0 n)))) as Htotal.
  { intros cn pred y n. unfold total.
    rewrite <- total_tally. f_equal. by apply fmap_fmap_ext. }
  split; [apply Htotal|].
  intros Hlen Hy Hp. rewrite Htotal. f_equal.
  rewrite filter_all_length; [by rewrite length_seq|].
  apply Forall_forall. intros k Hk.
  apply elem_of_seq in Hk. unfold sample_counted.
  destruct (lookup_lt_is_Some_2 (y_true self) k) as [t Ht]; [lia|].
  destruct (lookup_lt_is_Some_2 (pred_class self) k) as [p Hpk]; [lia|].
  rewrite Ht, Hpk. unfold in_range.
  rewrite !bool_decide_true; [done|..].
  - by eapply (Forall_lookup_1 _ _ _ _ Hp).
  - by eapply (Forall_lookup_1 _ _ _ _ Hy).
Qed.

(** X2: the diagonal of the confusion matrix adds up to the number of
    samples predicted right (with a label among the classes). *)
Theorem confusion_matrix_trace (self : ClassificationInterpretation) :
  Z.of_nat (length (y_true self)) < 2 ^ 63 →
  ∃ cm, confusion_matrix self = Some cm
    ∧ trace cm
      = Z.of_nat (length (filter
                            (λ k, sample_correct (c (ci_data self))
                                    (pred_class self) (y_true self) k = true)
                            (seq 0 (length (y_true self))))).
Proof.
  intros Hb. eexists. split; [by apply confusion_matrix_closed|].
  unfold trace.
  rewrite (diagonal_of_matrix
             (λ a j, Z.of_nat (tally (pred_class self) (y_true self) a j
                                 (length (y_true self))))).
  apply trace_tally.
Qed.

End MatrixTotals.

(** ** most_confused *)

Section MostConfused.
Context `{FW : Framework}.

Lemma filter_fmap_comm {A B} (P : B → Prop) `{∀ y, Decision (P y)}
    (f : A → B) (l : list A) :
  filter P (f <$> l) = f <$> filter (λ x, P (f x)) l.
Proof.
  induction l as [|x l IH]; [done|]. csimpl.
  rewrite !filter_cons. destruct (decide (P (f x))); csimpl; by rewrite IH.
Qed.

Lemma filter_mjoin_imap {A B} (P : B → Prop) `{∀ y, Decision (P y)}
    (f : nat → A → list B) (l : list A) :
  filter P (mjoin (imap f l)) = mjoin (imap (λ i x, filter P (f i x)) l).
Proof.
  revert f. induction l as [|x l IH]; intros f; [done|].
  rewrite !imap_cons. simpl. rewrite filter_app. f_equal. apply IH.
Qed.

Lemma insert_desc_first t l :
  Forall (λ u : Z * Z * Z, u.2 ≤ t.2) l → insert_desc t l = t :: l.
Proof.
  destruct 1 as [|u l Hu _]; [done|]. simpl. by rewrite decide_False by lia.
Qed.

Lemma filter_insert_desc (P : Z * Z * Z → Prop) `{∀ t, Decision (P t)} t l :
  StronglySorted (λ a b : Z * Z * Z, b.2 ≤ a.2) l →
  filter P (insert_desc t l)
  = if decide (P t) then insert_desc t (filter P l) else filter P l.
Proof.
  induction 1 as [|u l Hl IH Hu]; simpl.
  - rewrite list.filter_singleton by exact []. by destruct (decide (P t)).
  - destruct (decide (t.2 < u.2)) as [Hlt|Hge].
    + rewrite !(filter_cons _ u), IH.
      destruct (decide (P t)), (decide (P u)); simpl; try done.
      by rewrite decide_True.
    + rewrite (filter_cons _ t). destruct (decide (P t)); [|done].
      symmetry. apply insert_desc_first.
      apply Forall_forall. intros w Hw.
      apply list_elem_of_filter in Hw as [_ Hw].
      apply elem_of_cons in Hw as [->|Hw]; [lia|].
      rewrite Forall_forall in Hu. specialize (Hu w Hw). simpl in Hu. lia.
Qed.

(** Sorting and dropping commute: the sort is stable. *)
Lemma sorted_desc_filter (P : Z * Z * Z → Prop) `{∀ t, Decision (P t)} l :
  filter P (sorted_desc l) = sorted_desc (filter P l).
Proof.
  induction l as [|t l IH]; [done|]. simpl.
  rewrite filter_insert_desc by apply sorted_desc_sorted.
  rewrite filter_cons. destruct (decide (P t)); simpl; by rewrite IH.
Qed.

Lemma closed_cell (f : Z → Z → Z) (cn i j : nat) :
  ((λ a, (λ b, f a b) <$> Torch.arange cn) <$> Torch.arange cn) !! i
    ≫= (.!! j)
  = if decide (i < cn ∧ j < cn)%nat
    then Some (f (Z.of_nat i) (Z.of_nat j)) else None.
Proof.
  rewrite list_lookup_fmap.
  destruct (decide (i < cn)%nat) as [Hi|Hi].
  - rewrite arange_lookup by done. simpl. rewrite list_lookup_fmap.
    destruct (decide (j < cn)%nat) as [Hj|Hj].
    + rewrite arange_lookup by done. by rewrite decide_True.
    + rewrite (lookup_ge_None_2 (Torch.arange cn) j)
        by (rewrite arange_length; lia).
      by rewrite decide_False by lia.
  - rewrite (lookup_ge_None_2 (Torch.arange cn) i)
      by (rewrite arange_length; lia).
    by rewrite decide_False by lia.
Qed.

(** [most_confused] in closed form, for any threshold. *)
Lemma most_confused_closed (self : ClassificationInterpretation) (mv : Z) cm :
  confusion_matrix self = Some cm →
  length cm = c (ci_data self) →
  Forall (λ row, length row = c (ci_data self)) cm →
  most_confused self mv
  = Some (sorted_desc (cell_triple (fill_diagonal cm 0)
                       <$> where_gt (fill_diagonal cm 0) mv)).
Proof.
  intros Hcm Hrows Hcols. unfold most_confused. rewrite Hcm. simpl.
  rewrite (mapM_total_on _ (cell_triple (fill_diagonal cm 0))); [done|].
  intros [i j] Hij. apply where_gt_elem in Hij as (v & Hv & _).
  unfold cell_triple. simpl. rewrite Hv. simpl.
  assert (i < c (ci_data self) ∧ j < c (ci_data self))%nat as [Hi Hj].
  { rewrite fill_diagonal_cell in Hv.
    assert (is_Some (cm !! i ≫= (.!! j))) as [u Hu]
      by (case_decide; [destruct (cm !! i ≫= (.!! j)); [eauto|done]|eauto]).
    destruct (cm !! i) as [row|] eqn:Hrow; [|done]. simpl in Hu.
    split.
    - apply lookup_lt_Some in Hrow. lia.
    - apply lookup_lt_Some in Hu.
      rewrite Forall_forall in Hcols.
      rewrite <- (Hcols row); [done|]. by eapply list_elem_of_lookup_2. }
  unfold range_get. by rewrite !decide_True.
Qed.

Lemma closed_matrix_shape (f : Z → Z → Z) (cn : nat) :
  length ((λ a, (λ b, f a b) <$> Torch.arange cn) <$> Torch.arange cn) = cn
  ∧ Forall (λ row, length row = cn)
      ((λ a, (λ b, f a b) <$> Torch.arange cn) <$> Torch.arange cn).
Proof.
  split; [by rewrite length_fmap, arange_length|].
  apply Forall_fmap, Forall_forall. intros a _. simpl.
  by rewrite length_fmap, arange_length.
Qed.

Lemma omap_cons_id {A} (o : option A) (l : list (option A)) :
  omap id (o :: l)
  = match o with Some y => y :: omap id l | None => omap id l end.
Proof. reflexivity. Qed.

(** The cells of one row above a higher threshold. *)
Lemma row_where_raise (cm : list (list Z)) (m1 m2 : Z) (i : nat)
    (row r : list Z) (k : nat) :
  m1 ≤ m2 → cm !! i = Some row →
  (∀ j v, r !! j = Some v → row !! (k + j)%nat = Some v) →
  filter (λ p : nat * nat, m2 < (cell_triple cm p).2)
    (omap id (imap (λ j v, if decide (m1 < v) then Some (i, (k + j)%nat)
                           else None) r))
  = omap id (imap (λ j v, if decide (m2 < v) then Some (i, (k + j)%nat)
                          else None) r).
Proof.
  intros Hm Hrow. revert k. induction r as [|v r IH]; intros k Hr; [done|].
  rewrite !imap_cons.
  assert (row !! (k + 0)%nat = Some v) as Hv by (by apply Hr).
  assert (∀ m, imap ((λ j v0, if decide (m < v0)
                              then Some (i, (k + j)%nat) else None) ∘ S) r
               = imap (λ j v0, if decide (m < v0)
                               then Some (i, (S k + j)%nat) else None) r)
    as Hshift.
  { intros m. apply imap_ext. intros j u _. simpl.
    by replace (k + S j)%nat with (S (k + j)) by lia. }
  rewrite !Hshift.
  assert (∀ j u, r !! j = Some u → row !! (S k + j)%nat = Some u) as Hr'.
  { intros j u Hu. specialize (Hr (S j) u Hu).
    by replace (S k + j)%nat with (k + S j)%nat by lia. }
  specialize (IH (S k) Hr').
  assert ((cell_triple cm (i, (k + 0)%nat)).2 = v) as Hcell.
  { unfold cell_triple. simpl. rewrite Hrow. simpl. by rewrite Hv. }
  set (Q := λ p : nat * nat, m2 < (cell_triple cm p).2) in *.
  rewrite !omap_cons_id.
  destruct (decide (m1 < v)) as [H1|H1].
  - rewrite filter_cons, IH.
    destruct (decide (Q (i, (k + 0)%nat))) as [HQ|HQ];
      unfold Q in HQ; rewrite Hcell in HQ.
    + by rewrite decide_True.
    + by rewrite decide_False.
  - rewrite decide_False by lia. exact IH.
Qed.

Lemma where_gt_raise (cm : list (list Z)) (m1 m2 : Z) :
  m1 ≤ m2 →
  filter (λ p : nat * nat, m2 < (cell_triple cm p).2) (where_gt cm m1)
  = where_gt cm m2.
Proof.
  intros Hm. unfold where_gt. rewrite filter_mjoin_imap. f_equal.
  apply imap_ext. intros i row Hrow.
  apply (row_where_raise cm m1 m2 i row row 0); done.
Qed.

(** Cells in reading order: row by row, left to right. *)
Local Abbreviation cell_before :=
  (λ p q : nat * nat, (p.1 < q.1)%nat ∨ (p.1 = q.1 ∧ (p.2 < q.2)%nat)).

(** [np.where] lists the cells of one row from left to right. *)
Lemma row_cells_sorted (mv : Z) (i : nat) (r : list Z) : ∀ k : nat,
  StronglySorted cell_before
    (omap id (imap (λ j v, if decide (mv < v) then Some (i, (k + j)%nat)
                           else None) r))
  ∧ Forall (λ p : nat * nat, p.1 = i ∧ (k ≤ p.2)%nat)
      (omap id (imap (λ j v, if decide (mv < v) then Some (i, (k + j)%nat)
                             else None) r)).
Proof.
  induction r as [|v r IH]; intros k.
  - split; constructor.
  - rewrite imap_cons.
    assert (imap ((λ j v0, if decide (mv < v0)
                           then Some (i, (k + j)%nat) else None) ∘ S) r
            = imap (λ j v0, if decide (mv < v0)
                            then Some (i, (S k + j)%nat) else None) r)
      as ->.
    { apply imap_ext. intros j u _. simpl.
      by replace (k + S j)%nat with (S (k + j)) by lia. }
    destruct (IH (S k)) as [Hs Hf]. rewrite omap_cons_id.
    destruct (decide (mv < v)).
    + split.
      * apply StronglySorted_cons. split; [|done].
        eapply Forall_impl; [exact Hf|]. simpl. intros p [-> Hp].
        right. split; [done|]. lia.
      * constructor; [simpl; split; [done|lia]|].
        eapply Forall_impl; [exact Hf|]. simpl. intros p [-> Hp].
        split; [done|lia].
    + split; [done|].
      eapply Forall_impl; [exact Hf|]. simpl. intros p [-> Hp].
      split; [done|lia].
Qed.

(** ... and the rows from top to bottom. *)
Lemma rows_cells_sorted (mv : Z) (cm : list (list Z)) : ∀ k : nat,
  StronglySorted cell_before
    (mjoin (imap (λ i row,
                    omap id (imap (λ j v, if decide (mv < v)
                                          then Some ((k + i)%nat, j)
                                          else None) row)) cm))
  ∧ Forall (λ p : nat * nat, (k ≤ p.1)%nat)
      (mjoin (imap (λ i row,
                      omap id (imap (λ j v, if decide (mv < v)
                                            then Some ((k + i)%nat, j)
                                            else None) row)) cm)).
Proof.
  induction cm as [|row cm IH]; intros k.
  - split; constructor.
  - rewrite imap_cons.
    assert (imap ((λ i row0,
                     omap id (imap (λ j v, if decide (mv < v)
                                           then Some ((k + i)%nat, j)
                                           else None) row0)) ∘ S) cm
            = imap (λ i row0,
                      omap id (imap (λ j v, if decide (mv < v)
                                            then Some ((S k + i)%nat, j)
                                            else None) row0)) cm)
      as ->.
    { apply imap_ext. intros i u _. simpl.
      by replace (k + S i)%nat with (S (k + i)) by lia. }
    destruct (IH (S k)) as [Hs Hf].
    destruct (row_cells_sorted mv (k + 0)%nat row 0) as [Hrs Hrf].
    simpl mjoin. split.
    + apply StronglySorted_app. split; [|split; [exact Hrs|exact Hs]].
      intros p q Hp Hq.
      rewrite Forall_forall in Hrf, Hf.
      destruct (Hrf p Hp) as [Hp1 _]. specialize (Hf q Hq). simpl in Hf.
      left. lia.
    + apply Forall_app. split.
      * eapply Forall_impl; [exact Hrf|]. simpl. intros p [-> _]. lia.
      * eapply Forall_impl; [exact Hf|]. simpl. intros p Hp. lia.
Qed.

Lemma where_gt_sorted (cm : list (list Z)) (mv : Z) :
  StronglySorted cell_before (where_gt cm mv).
Proof. exact (proj1 (rows_cells_sorted mv cm 0)). Qed.

(** The stable sort puts an entry that comes first in reading order ahead
    of the entries of the same count. *)
Lemma insert_desc_before t l :
  StronglySorted entry_before l →
  Forall (λ u, t.1.1 < u.1.1 ∨ (t.1.1 = u.1.1 ∧ t.1.2 < u.1.2)) l →
  StronglySorted entry_before (insert_desc t l).
Proof.
  induction 1 as [|u l Hl IH Hu]; intros Ht; simpl.
  - repeat constructor.
  - apply Forall_cons in Ht as [Htu Ht].
    case_decide as Hd.
    + constructor; [by apply IH|].
      rewrite insert_desc_perm. constructor; [by left|done].
    + constructor; [by constructor|].
      constructor.
      * unfold entry_before. destruct (decide (u.2 = t.2)); [|lia].
        right. done.
      * rewrite Forall_forall in Hu, Ht. apply Forall_forall.
        intros x Hx. specialize (Hu x Hx). specialize (Ht x Hx).
        unfold entry_before in *.
        destruct (decide (x.2 = t.2)); [by right|]. left. lia.
Qed.

Lemma sorted_desc_before l :
  StronglySorted
    (λ t u : Z * Z * Z, t.1.1 < u.1.1 ∨ (t.1.1 = u.1.1 ∧ t.1.2 < u.1.2)) l →
  StronglySorted entry_before (sorted_desc l).
Proof.
  induction 1 as [|t l Hl IH Ht]; simpl; [constructor|].
  apply insert_desc_before; [done|]. by rewrite sorted_desc_perm.
Qed.

Lemma entry_before_NoDup l : StronglySorted entry_before l → NoDup l.
Proof.
  induction 1 as [|t l Hl IH Ht]; constructor; [|done].
  intros Hin. rewrite Forall_forall in Ht. specialize (Ht t Hin).
  unfold entry_before in Ht. lia.
Qed.

(** X3: above a threshold that is not negative, [most_confused] returns
    the cells off the diagonal that are above the threshold, each with its
    row and column and each once, in descending order of count; entries of
    the same count come in the order of their cells, row by row. *)
Theorem most_confused_above_threshold (self : ClassificationInterpretation)
    (min_val : Z) :
  Z.of_nat (length (y_true self)) < 2 ^ 63 →
  0 ≤ min_val →
  ∃ cm res,
    confusion_matrix self = Some cm
    ∧ most_confused self min_val = Some res
    ∧ StronglySorted (λ a b : Z * Z * Z, b.2 ≤ a.2) res
    ∧ (∀ i j v,
         (i, j, v) ∈ res
         ↔ ∃ i' j' : nat,
             i = Z.of_nat i' ∧ j = Z.of_nat j' ∧ i' ≠ j'
             ∧ cm !! i' ≫= (.!! j') = Some v ∧ min_val < v)
    ∧ NoDup res
    ∧ StronglySorted entry_before res.
Proof.
  intros Hb Hmv.
  destruct (most_confused_off_diagonal self min_val Hb Hmv)
    as (cm & res & Hcm & Hres & Hsorted & Hmem).
  exists cm, res. do 4 (split; [done|]).
  assert (StronglySorted entry_before res) as Hstrict.
  { pose proof (confusion_matrix_closed self Hb) as Hcm'.
    destruct (closed_matrix_shape
                (λ a j, Z.of_nat (tally (pred_class self) (y_true self) a j
                                    (length (y_true self))))
                (c (ci_data self))) as [Hrows Hcols].
    rewrite (most_confused_closed self min_val _ Hcm' Hrows Hcols) in Hres.
    injection Hres as <-.
    apply sorted_desc_before.
    apply (StronglySorted_fmap _ cell_before); [|apply where_gt_sorted].
    intros p q Hpq. unfold cell_triple. simpl. lia. }
  split; [by apply entry_before_NoDup|done].
Qed.

(** X4: when every prediction is the true label, nothing is confused:
    [most_confused] returns the empty list for every threshold that is not
    negative. *)
Theorem most_confused_perfect (self : ClassificationInterpretation)
    (min_val : Z) :
  Z.of_nat (length (y_true self)) < 2 ^ 63 →
  0 ≤ min_val →
  pred_class self = y_true self →
  most_confused self min_val = Some [].
Proof.
  intros Hb Hmv Hperfect.
  pose proof (confusion_matrix_closed self Hb) as Hcm.
  destruct (closed_matrix_shape
              (λ a j, Z.of_nat (tally (pred_class self) (y_true self) a j
                                  (length (y_true self))))
              (c (ci_data self))) as [Hrows Hcols].
  rewrite (most_confused_closed self min_val _ Hcm Hrows Hcols).
  rewrite (elem_of_nil_inv (where_gt _ min_val)); [done|].
  intros [i j] Hij. apply where_gt_elem in Hij as (v & Hv & Hgt).
  rewrite fill_diagonal_cell, closed_cell in Hv.
  destruct (decide (i = j)) as [->|Hne].
  - case_decide; simpl in Hv; [|done]. injection Hv as <-. lia.
  - case_decide; [|done]. injection Hv as <-.
    rewrite Hperfect in Hgt. unfold tally in Hgt.
    rewrite (elem_of_nil_inv (filter _ _)) in Hgt; [simpl in Hgt; lia|].
    intros k Hk. apply list_elem_of_filter in Hk as [[Hi Hj] _].
    rewrite Hi in Hj. injection Hj as Hj. lia.
Qed.

(** X5: raising the threshold only drops entries.  For [m1 <= m2], the
    result for [m2] is the result for [m1] without the entries whose count
    is not above [m2]; the entries that stay keep their order. *)
Theorem most_confused_raise_threshold (self : ClassificationInterpretation)
    (m1 m2 : Z) :
  Z.of_nat (length (y_true self)) < 2 ^ 63 →
  m1 ≤ m2 →
  ∃ res1,
    most_confused self m1 = Some res1
    ∧ most_confused self m2 = Some (filter (λ t, m2 < t.2) res1).
Proof.
  intros Hb Hm.
  pose proof (confusion_matrix_closed self Hb) as Hcm.
  destruct (closed_matrix_shape
              (λ a j, Z.of_nat (tally (pred_class self) (y_true self) a j
                                  (length (y_true self))))
              (c (ci_data self))) as [Hrows Hcols].
  eexists. split; [by apply (most_confused_closed self m1 _ Hcm)|].
  rewrite (most_confused_closed self m2 _ Hcm Hrows Hcols). f_equal.
  rewrite sorted_desc_filter, filter_fmap_comm.
  by rewrite (where_gt_raise _ m1 m2).
Qed.

Lemma Zsum_perm l l' : l ≡ₚ l' → Zsum l = Zsum l'.
Proof. unfold Zsum. induction 1; simpl; lia. Qed.

Lemma Zsum_cons x l : Zsum (x :: l) = x + Zsum l.
Proof. reflexivity. Qed.

Lemma Zsum_fmap_mjoin_imap {A B} (h : B → Z) (g : nat → A → list B)
    (l : list A) :
  Zsum (h <$> mjoin (imap g l)) = Zsum (imap (λ i x, Zsum (h <$> g i x)) l).
Proof.
  revert g. induction l as [|x l IH]; intros g; [done|].
  rewrite !imap_cons. simpl mjoin. rewrite fmap_app, Zsum_app, IH. done.
Qed.

(** The counts of the cells of one row above a threshold. *)
Lemma row_above_sum (cm : list (list Z)) (mv : Z) (i : nat)
    (row r : list Z) (k : nat) :
  cm !! i = Some row →
  (∀ j v, r !! j = Some v → row !! (k + j)%nat = Some v) →
  Zsum ((λ p : nat * nat, (cell_triple cm p).2)
        <$> omap id (imap (λ j v, if decide (mv < v)
                                  then Some (i, (k + j)%nat) else None) r))
  = Zsum ((λ v, if decide (mv < v) then v else 0) <$> r).
Proof.
  intros Hrow. revert k. induction r as [|v r IH]; intros k Hr; [done|].
  rewrite imap_cons.
  assert (row !! (k + 0)%nat = Some v) as Hv by (by apply Hr).
  assert (imap ((λ j v0, if decide (mv < v0)
                         then Some (i, (k + j)%nat) else None) ∘ S) r
          = imap (λ j v0, if decide (mv < v0)
                          then Some (i, (S k + j)%nat) else None) r)
    as Hshift.
  { apply imap_ext. intros j u _. simpl.
    by replace (k + S j)%nat with (S (k + j)) by lia. }
  rewrite Hshift.
  assert (∀ j u, r !! j = Some u → row !! (S k + j)%nat = Some u) as Hr'.
  { intros j u Hu. specialize (Hr (S j) u Hu).
    by replace (S k + j)%nat with (k + S j)%nat by lia. }
  specialize (IH (S k) Hr').
  assert ((cell_triple cm (i, (k + 0)%nat)).2 = v) as Hcell.
  { unfold cell_triple. simpl. rewrite Hrow. simpl. by rewrite Hv. }
  rewrite omap_cons_id. rewrite fmap_cons, Zsum_cons.
  destruct (decide (mv < v)) as [H1|H1].
  - rewrite fmap_cons, Zsum_cons, IH, Hcell. done.
  - rewrite IH. lia.
Qed.

Lemma where_gt_sum (cm : list (list Z)) (mv : Z) :
  Zsum ((λ p : nat * nat, (cell_triple cm p).2) <$> where_gt cm mv)
  = Zsum ((λ row, Zsum ((λ v, if decide (mv < v) then v else 0) <$> row))
          <$> cm).
Proof.
  unfold where_gt. rewrite Zsum_fmap_mjoin_imap.
  rewrite <- imap_const. f_equal.
  apply imap_ext. intros i row Hrow.
  apply (row_above_sum cm mv i row row 0); done.
Qed.

Lemma Zsum_insert_zero (row : list Z) (i : nat) :
  Zsum (<[i := 0]> row) = Zsum row - default 0 (row !! i).
Proof.
  revert i. induction row as [|x row IH]; intros [|i]; try done.
  - change (<[0%nat := 0]> (x :: row)) with (0 :: row).
    rewrite !Zsum_cons. simpl. lia.
  - change (<[S i := 0]> (x :: row)) with (x :: <[i := 0]> row).
    change ((x :: row) !! S i) with (row !! i).
    rewrite !Zsum_cons, IH. lia.
Qed.

Lemma Zsum_imap_sub {A} (f g : nat → A → Z) (l : list A) :
  Zsum (imap (λ i x, f i x - g i x) l) = Zsum (imap f l) - Zsum (imap g l).
Proof.
  revert f g. induction l as [|x l IH]; intros f g; [done|].
  rewrite !imap_cons, !Zsum_cons.
  change (imap ((λ i x, f i x - g i x) ∘ S) l)
    with (imap (λ i x, (f ∘ S) i x - (g ∘ S) i x) l).
  rewrite IH. lia.
Qed.

(** Clearing the diagonal takes the diagonal off the sum of the cells. *)
Lemma total_fill_diagonal (cm : list (list Z)) :
  total (fill_diagonal cm 0) = total cm - trace cm.
Proof.
  unfold total, trace, fill_diagonal. rewrite fmap_imap.
  rewrite <- (imap_const Zsum cm).
  rewrite <- (Zsum_imap_sub (const Zsum) (λ i row, default 0 (row !! i))).
  f_equal. apply imap_ext. intros i row _. simpl. apply Zsum_insert_zero.
Qed.

Lemma positive_cells_sum (cm : list (list Z)) :
  Forall (Forall (λ v, 0 ≤ v)) cm →
  Zsum ((λ row, Zsum ((λ v, if decide (0 < v) then v else 0) <$> row))
        <$> cm)
  = total cm.
Proof.
  unfold total. induction 1 as [|row cm Hrow _ IH]; [done|].
  rewrite !fmap_cons, !Zsum_cons, IH. f_equal.
  clear IH. induction Hrow as [|v row Hv _ IH]; [done|].
  rewrite fmap_cons, !Zsum_cons, IH. case_decide; lia.
Qed.

Lemma fill_diagonal_nonneg (cm : list (list Z)) :
  Forall (Forall (λ v, 0 ≤ v)) cm →
  Forall (Forall (λ v, 0 ≤ v)) (fill_diagonal cm 0).
Proof.
  intros Hcm. apply Forall_lookup. intros i row' Hrow'.
  unfold fill_diagonal in Hrow'. rewrite list_lookup_imap in Hrow'.
  destruct (cm !! i) as [row|] eqn:Hrow; [|done]. injection Hrow' as <-.
  apply Forall_insert; [|done].
  by eapply (Forall_lookup_1 _ _ _ _ Hcm).
Qed.

(** X6: with the default threshold 0, the counts that [most_confused]
    lists add up to the cells off the diagonal of the confusion matrix:
    every wrong prediction is in one entry of the list. *)
Theorem most_confused_counts_errors (self : ClassificationInterpretation) :
  Z.of_nat (length (y_true self)) < 2 ^ 63 →
  ∃ cm res,
    confusion_matrix self = Some cm
    ∧ most_confused self 0 = Some res
    ∧ Zsum ((λ t, t.2) <$> res) = total cm - trace cm.
Proof.
  intros Hb.
  pose proof (confusion_matrix_closed self Hb) as Hcm.
  destruct (closed_matrix_shape
              (λ a j, Z.of_nat (tally (pred_class self) (y_true self) a j
                                  (length (y_true self))))
              (c (ci_data self))) as [Hrows Hcols].
  do 2 eexists. split; [exact Hcm|].
  split; [by apply (most_confused_closed self 0 _ Hcm)|].
  rewrite (Zsum_perm _ _ (fmap_Permutation _ _ _ (sorted_desc_perm _))).
  rewrite <- list_fmap_compose.
  rewrite <- total_fill_diagonal, <- positive_cells_sum.
  - by rewrite <- where_gt_sum.
  - apply fill_diagonal_nonneg.
    apply Forall_fmap, Forall_forall. intros a _. simpl.
    apply Forall_fmap, Forall_forall. intros j _. simpl. lia.
Qed.

End MostConfused.

(** ** The matrix as a count over the samples *)

Section MatrixSymmetry.
Context `{FW : Framework}.

Lemma tally_nil_pred y a j n : tally [] y a j n = 0%nat.
Proof.
  induction n as [|n IH]; [done|].
  rewrite tally_S, IH. by destruct (decide _) as [[_ ?]|].
Qed.

Lemma tally_nil_y pred a j n : tally pred [] a j n = 0%nat.
Proof.
  induction n as [|n IH]; [done|].
  rewrite tally_S, IH. by destruct (decide _) as [[? _]|].
Qed.

Lemma tally_cons p pred t y a j n :
  tally (p :: pred) (t :: y) a j (S n)
  = ((if decide ((t, p) = (a, j)) then 1 else 0) + tally pred y a j n)%nat.
Proof.
  unfold tally. rewrite <- cons_seq, filter_cons.
  rewrite <- fmap_S_seq, filter_fmap_comm.
  change (filter (λ k, (t :: y) !! S k = Some a ∧ (p :: pred) !! S k = Some j)
            (seq 0 n))
    with (filter (λ k, y !! k = Some a ∧ pred !! k = Some j) (seq 0 n)).
  destruct (decide ((t :: y) !! 0%nat = Some a ∧ (p :: pred) !! 0%nat = Some j))
    as [[Ht Hp]|Hn];
    destruct (decide ((t, p) = (a, j))) as [Heq|Hne];
    simpl; rewrite length_fmap; try done.
  - destruct Hne. simpl in Ht, Hp. congruence.
  - destruct Hn. simpl. split; congruence.
Qed.

(** A cell of the matrix counts the samples with that pair of label and
    prediction. *)
Lemma tally_zip pred y a j :
  tally pred y a j (length y)
  = length (filter (λ s, s = (a, j)) (zip y pred)).
Proof.
  revert pred. induction y as [|t y IH]; intros pred; [done|].
  destruct pred as [|p pred].
  - simpl length. by rewrite tally_nil_pred.
  - simpl length. rewrite tally_cons, IH. simpl zip.
    rewrite filter_cons. by destruct (decide ((t, p) = (a, j))).
Qed.

Lemma count_zip_swap (u v : list Z) (a j : Z) :
  length (filter (λ s, s = (a, j)) (zip u v))
  = length (filter (λ s, s = (j, a)) (zip v u)).
Proof.
  revert v. induction u as [|x u IH]; intros [|z v]; try done.
  simpl zip. rewrite !filter_cons.
  destruct (decide ((x, z) = (a, j))) as [Heq|Hne],
    (decide ((z, x) = (j, a))) as [Heq'|Hne']; simpl; rewrite IH;
    solve [done | exfalso; congruence].
Qed.

Lemma confusion_matrix_counts (self : ClassificationInterpretation) :
  Z.of_nat (length (y_true self)) < 2 ^ 63 →
  confusion_matrix self
  = Some ((λ a, (λ j, Z.of_nat (length (filter (λ s, s = (a, j))
                                          (samples self))))
                <$> Torch.arange (c (ci_data self)))
          <$> Torch.arange (c (ci_data self))).
Proof.
  intros Hb. rewrite confusion_matrix_closed by done. f_equal.
  apply list_fmap_ext. intros _ a _. apply list_fmap_ext. intros _ j _.
  by rewrite tally_zip.
Qed.

(** X7: the order of the samples does not matter: two interpretations
    over the same classes whose samples are a permutation of each other
    have the same confusion matrix. *)
Theorem confusion_matrix_order_free (self other : ClassificationInterpretation) :
  c (ci_data other) = c (ci_data self) →
  samples other ≡ₚ samples self →
  Z.of_nat (length (y_true self)) < 2 ^ 63 →
  Z.of_nat (length (y_true other)) < 2 ^ 63 →
  ∃ cm, confusion_matrix self = Some cm ∧ confusion_matrix other = Some cm.
Proof.
  intros Hc Hperm Hb Hb'. eexists. split; [by apply confusion_matrix_counts|].
  rewrite confusion_matrix_counts, Hc by done. f_equal.
  apply list_fmap_ext. intros _ a _. apply list_fmap_ext. intros _ j _.
  by rewrite Hperm.
Qed.

(** X8: exchanging labels and predictions transposes the matrix. *)
Theorem confusion_matrix_swap_transposes
    (self : ClassificationInterpretation) :
  Z.of_nat (length (y_true self)) < 2 ^ 63 →
  Z.of_nat (length (pred_class self)) < 2 ^ 63 →
  ∃ cm cm',
    confusion_matrix self = Some cm
    ∧ confusion_matrix (swap_roles self) = Some cm'
    ∧ length cm' = length cm
    ∧ ∀ i j : nat, cm' !! i ≫= (.!! j) = cm !! j ≫= (.!! i).
Proof.
  intros Hb Hb'. do 2 eexists.
  split; [by apply confusion_matrix_counts|].
  split; [by apply confusion_matrix_counts|].
  split; [by rewrite !length_fmap|].
  intros i j.
  rewrite (closed_cell (λ a j, Z.of_nat (length (filter (λ s, s = (a, j))
                                                  (samples self))))).
  rewrite (closed_cell
             (λ a j, Z.of_nat (length (filter (λ s, s = (a, j))
                                         (samples (swap_roles self)))))).
  simpl.
  destruct (decide (i < c (ci_data self) ∧ j < c (ci_data self))%nat)
    as [Hij|Hij].
  - rewrite decide_True by lia. do 2 f_equal.
    unfold samples, swap_roles. simpl. apply count_zip_swap.
  - by rewrite decide_False by lia.
Qed.

(** X9: the matrix of two sets of samples taken together is the sum of
    their matrices. *)
Theorem confusion_matrix_additive
    (one two both : ClassificationInterpretation) :
  c (ci_data one) = c (ci_data both) →
  c (ci_data two) = c (ci_data both) →
  y_true both = y_true one ++ y_true two →
  pred_class both = pred_class one ++ pred_class two →
  length (pred_class one) = length (y_true one) →
  Z.of_nat (length (y_true both)) < 2 ^ 63 →
  ∃ cm1 cm2,
    confusion_matrix one = Some cm1
    ∧ confusion_matrix two = Some cm2
    ∧ confusion_matrix both = Some (Torch.add cm1 cm2).
Proof.
  intros Hc1 Hc2 Hy Hp Hlen Hb.
  assert (Z.of_nat (length (y_true one)) < 2 ^ 63
          ∧ Z.of_nat (length (y_true two)) < 2 ^ 63) as [Hb1 Hb2].
  { rewrite Hy, length_app in Hb. lia. }
  do 2 eexists.
  split; [by apply confusion_matrix_counts|].
  split; [by apply confusion_matrix_counts|].
  rewrite confusion_matrix_counts by done. f_equal.
  rewrite Hc1, Hc2. unfold Torch.add. rewrite zip_with_fmap_same.
  apply list_fmap_ext. intros _ a _. rewrite zip_with_fmap_same.
  apply list_fmap_ext. intros _ j _.
  unfold samples. rewrite Hy, Hp.
  rewrite zip_with_app by done.
  rewrite filter_app, length_app.
  pose proof (length_filter (λ s, s = (a, j))
                (zip (y_true one) (pred_class one))) as H1.
  pose proof (length_filter (λ s, s = (a, j))
                (zip (y_true two) (pred_class two))) as H2.
  pose proof (length_zip_with_l_eq pair (y_true one) (pred_class one)
                ltac:(done)) as Hz1.
  assert (length (zip (y_true two) (pred_class two))
          ≤ length (y_true two))%nat as Hz2.
  { rewrite length_zip_with. lia. }
  fold (zip (y_true one) (pred_class one)) in Hz1.
  rewrite Hy, length_app in Hb.
  rewrite wrap64_small; lia.
Qed.

End MatrixSymmetry.

(** ** The attach functions together *)

Section AttachMore.
Context `{FW : Framework} `{BT : !BasicTrain}.

Ltac this_learner := simpl; first [eassumption | apply lookup_insert_eq].

Ltac step_store :=
  repeat first
    [ rewrite run_bind
    | erewrite run_new_LearnerCallback by this_learner
    | erewrite run_modify_learner by this_learner
    | erewrite run_get_learner by this_learner
    | progress simpl ].

Lemma for_remove_nothing (P : loc → bool) l i :
  Forall (λ y, P y = false) l → for_remove P l i = Some l.
Proof.
  funelim (for_remove P l i); intros Hl; try done; try eauto;
    exfalso;
    match goal with
    | Hi : ?l !! _ = Some ?cb, Hcb : P ?cb = true |- _ =>
        rewrite Forall_forall in Hl;
        rewrite (Hl cb) in Hcb;
          [done | by eapply list_elem_of_lookup_2]
    end.
Qed.

(** The loop on a list whose only element to remove stands last. *)
Lemma for_remove_tail (P : loc → bool) pre suf x :
  Forall (λ y, P y = false) suf → P x = true → x ∉ pre ++ suf →
  for_remove P (pre ++ suf ++ [x]) (length pre) = Some (pre ++ suf).
Proof.
  intros Hsuf Hx. revert pre.
  induction Hsuf as [|y suf Hy Hsuf IH]; intros pre Hnotin.
  - simpl. rewrite for_remove_step.
    rewrite lookup_app_r, Nat.sub_diag by lia. simpl. rewrite Hx.
    rewrite py_remove_middle by (by rewrite app_nil_r in Hnotin). simpl.
    rewrite for_remove_step.
    rewrite lookup_ge_None_2 by (rewrite length_app; simpl; lia). done.
  - rewrite for_remove_step.
    rewrite lookup_app_r, Nat.sub_diag by lia. simpl. rewrite Hy.
    replace (pre ++ y :: suf ++ [x]) with ((pre ++ [y]) ++ suf ++ [x])
      by (by rewrite <- app_assoc).
    replace (S (length pre)) with (length (pre ++ [y]))
      by (rewrite length_app; simpl; lia).
    rewrite IH; [by rewrite <- app_assoc|].
    by rewrite <- app_assoc.
Qed.

(** X10: [to_fp32] keeps every callback that is not a [MixedPrecision], in
    the order they had; on a learner without [MixedPrecision] callbacks the
    list of callbacks is left as it was. *)
Theorem to_fp32_keeps_other_callbacks learn w l d tr va te :
  learners w !! learn = Some l →
  train_dl (data l) = Obj d → remove_tfm d batch_to_half = Some tr →
  remove_half_if_present (valid_dl (data l)) = Some va →
  remove_half_if_present (test_dl (data l)) = Some te →
  ∃ w' l',
    to_fp32 learn w = Some (learn, w')
    ∧ learners w' !! learn = Some l'
    ∧ filter (λ cb, is_MixedPrecision_at w cb = false) (callbacks l')
      = filter (λ cb, is_MixedPrecision_at w cb = false) (callbacks l)
    ∧ (Forall (λ cb, is_MixedPrecision_at w cb = false) (callbacks l) →
       callbacks l' = callbacks l).
Proof.
  intros Hl Hd Htr Hva Hte.
  destruct (to_fp32_run _ _ _ _ _ _ _ Hl Hd Htr Hva Hte)
    as (cbs & Hloop & _ & ->).
  do 2 eexists. split; [done|]. simpl. rewrite lookup_insert_eq.
  split; [done|]. simpl. split.
  - by apply (for_remove_keeps (is_MixedPrecision_at w) _ 0).
  - intros Hnone.
    pose proof (for_remove_nothing (is_MixedPrecision_at w) _ 0 Hnone) as Hn.
    unfold is_MixedPrecision_at in Hn. rewrite Hn in Hloop.
    by injection Hloop as <-.
Qed.

(** X11: [to_fp32] raises exactly when [learn.data.train_dl] is missing or
    [None], or when one of the [remove_tfm] calls raises; the validation and
    test loaders may be missing or [None]. *)
Theorem to_fp32_raises_iff learn w l :
  learners w !! learn = Some l →
  to_fp32 learn w = None
  ↔ ¬ ∃ d, train_dl (data l) = Obj d
           ∧ is_Some (remove_tfm d batch_to_half)
           ∧ (∀ v, valid_dl (data l) = Obj v
                   → is_Some (remove_tfm v batch_to_half))
           ∧ (∀ t, test_dl (data l) = Obj t
                   → is_Some (remove_tfm t batch_to_half)).
Proof.
  intros Hl. split.
  - intros Hnone (d & Hd & [tr Htr] & Hva & Hte).
    assert (is_Some (remove_half_if_present (valid_dl (data l))))
      as [va Hva'].
    { destruct (valid_dl (data l)) as [| |v]; simpl; [eauto..|].
      destruct (Hva v eq_refl) as [v' ->]. simpl. eauto. }
    assert (is_Some (remove_half_if_present (test_dl (data l))))
      as [te Hte'].
    { destruct (test_dl (data l)) as [| |t]; simpl; [eauto..|].
      destruct (Hte t eq_refl) as [t' ->]. simpl. eauto. }
    destruct (to_fp32_run _ _ _ _ _ _ _ Hl Hd Htr Hva' Hte')
      as (cbs & _ & _ & Hrun).
    by rewrite Hrun in Hnone.
  - intros Hno. destruct (to_fp32 learn w) as [[r w']|] eqn:Hrun; [|done].
    exfalso. apply Hno. unfold to_fp32 in Hrun. rewrite Hl in Hrun.
    simpl in Hrun.
    destruct (train_dl (data l)) as [| |d]; try done.
    destruct (remove_tfm d batch_to_half) as [tr|] eqn:Htr; [|done].
    simpl in Hrun. exists d. split; [done|]. split; [eauto|].
    destruct (remove_half_if_present (valid_dl (data l))) as [va|] eqn:Hva;
      [|done].
    simpl in Hrun.
    destruct (remove_half_if_present (test_dl (data l))) as [te|] eqn:Hte;
      [|done].
    split.
    + intros v Hv. rewrite Hv in Hva. simpl in Hva.
      destruct (remove_tfm v batch_to_half); [eauto|done].
    + intros t Ht. rewrite Ht in Hte. simpl in Hte.
      destruct (remove_tfm t batch_to_half); [eauto|done].
Qed.

(** X12: [to_fp16] followed by [to_fp32] gives the callbacks back as they
    were (for a learner whose callbacks hold no [MixedPrecision] before),
    and the model has gone through [model2half] and then [float()]; but
    [learn.mp_cb] still names the [MixedPrecision] object, which is no longer
    among the callbacks. *)
Theorem to_fp16_to_fp32_round_trip learn loss_scale flat_master w l d tr
    va te :
  learners w !! learn = Some l →
  no_MixedPrecision w (callbacks l) →
  train_dl (data l) = Obj d → remove_tfm d batch_to_half = Some tr →
  remove_half_if_present (valid_dl (data l)) = Some va →
  remove_half_if_present (test_dl (data l)) = Some te →
  ∃ w1 w2 l2 cb,
    to_fp16 learn loss_scale flat_master w = Some (learn, w1)
    ∧ to_fp32 learn w1 = Some (learn, w2)
    ∧ learners w2 !! learn = Some l2
    ∧ callbacks l2 = callbacks l
    ∧ model l2 = Module_float (model2half (model l))
    ∧ mp_cb l2 = Obj cb ∧ (cb ∉ callbacks l2)
    ∧ objects w2 !! cb = Some (MixedPrecision learn loss_scale flat_master)
    ∧ loss_func l2 = loss_func l ∧ callback_fns l2 = callback_fns l.
Proof.
  intros Hl Hnone Hd Htr Hva Hte.
  set (cb := fresh (dom (objects w))).
  assert (cb ∉ callbacks l) as Hfresh.
  { intros Hin. unfold no_MixedPrecision in Hnone.
    rewrite Forall_forall in Hnone.
    destruct (Hnone cb Hin) as (o & Ho & _).
    unfold cb in Ho. by rewrite new_is_fresh in Ho. }
  eexists _, _, _, cb.
  split; [by apply to_fp16_run|].
  edestruct (to_fp32_run learn) as (cbs & Hloop & _ & ->);
    [apply lookup_insert_eq | exact Hd | exact Htr | exact Hva | exact Hte |].
  simpl in Hloop.
  rewrite (for_remove_tail _ [] (callbacks l) cb) in Hloop.
  - injection Hloop as <-. split; [done|]. simpl.
    rewrite !lookup_insert_eq. done.
  - unfold no_MixedPrecision in Hnone.
    rewrite Forall_forall in Hnone. apply Forall_forall.
    intros x Hx. destruct (Hnone x Hx) as (o & Ho & Hno).
    rewrite lookup_insert_ne; [by rewrite Ho|].
    intros <-. by apply Hfresh.
  - by rewrite lookup_insert_eq.
  - done.
Qed.

(** X13: [mixup] does not notice that it was applied before: a second call
    wraps the loss function once more and appends a second [MixUpCallback]
    factory, each factory with the arguments of its own call; nothing else
    changes. *)
Theorem mixup_twice learn alpha1 alpha2 sx1 sx2 sy1 sy2 w l :
  learners w !! learn = Some l →
  ∃ w1 w2 l2 f1 f2,
    mixup learn alpha1 sx1 sy1 w = Some (learn, w1)
    ∧ mixup learn alpha2 sx2 sy2 w1 = Some (learn, w2)
    ∧ learners w2 !! learn = Some l2
    ∧ f1 = partial class_MixUpCallback
             [("alpha"%string, PyFloat alpha1);
              ("stack_x"%string, PyBool sx1);
              ("stack_y"%string, PyBool sy1)]
    ∧ f2 = partial class_MixUpCallback
             [("alpha"%string, PyFloat alpha2);
              ("stack_x"%string, PyBool sx2);
              ("stack_y"%string, PyBool sy2)]
    ∧ callback_fns l2 = callback_fns l ++ [f1; f2]
    ∧ model l2 = model l ∧ data l2 = data l
    ∧ callbacks l2 = callbacks l ∧ mp_cb l2 = mp_cb l ∧ rest l2 = rest l
    ∧ objects w2 = objects w ∧ calls w2 = calls w
    ∧ loss_func l2
      = (if sy2 then MixUpLoss else id)
          ((if sy1 then MixUpLoss else id) (loss_func l))
    ∧ (sy1 = true → sy2 = true →
       loss_func l2 = MixUpLoss (MixUpLoss (loss_func l))).
Proof.
  intros Hl. do 5 eexists.
  split; [by apply mixup_run|].
  split; [apply mixup_run; apply lookup_insert_eq|]. simpl.
  rewrite lookup_insert_eq. split; [done|]. simpl.
  split; [done|]. split; [done|].
  rewrite <- app_assoc. split; [done|].
  do 7 (split; [done|]).
  split; [by destruct sy1, sy2|]. by intros -> ->.
Qed.

(** X14: a second [to_fp16] converts the model again and attaches a second
    [MixedPrecision] callback, another object than the first;
    [learn.mp_cb] names the second. *)
Theorem to_fp16_twice learn ls1 fm1 ls2 fm2 w l :
  learners w !! learn = Some l →
  ∃ w1 w2 l2 cb1 cb2,
    to_fp16 learn ls1 fm1 w = Some (learn, w1)
    ∧ to_fp16 learn ls2 fm2 w1 = Some (learn, w2)
    ∧ learners w2 !! learn = Some l2
    ∧ cb1 ≠ cb2
    ∧ callbacks l2 = callbacks l ++ [cb1; cb2]
    ∧ mp_cb l2 = Obj cb2
    ∧ objects w2 !! cb1 = Some (MixedPrecision learn ls1 fm1)
    ∧ objects w2 !! cb2 = Some (MixedPrecision learn ls2 fm2)
    ∧ model l2 = model2half (model2half (model l)).
Proof.
  intros Hl.
  set (cb1 := fresh (dom (objects w))).
  set (cb2 := fresh (dom (<[cb1 := MixedPrecision learn ls1 fm1]>
                            (objects w)))).
  assert (cb1 ≠ cb2) as Hne.
  { intros Heq.
    pose proof (is_fresh (dom (<[cb1 := MixedPrecision learn ls1 fm1]>
                                 (objects w)))) as Hf.
    fold cb2 in Hf. rewrite <- Heq in Hf. apply Hf.
    apply elem_of_dom. rewrite lookup_insert_eq. eauto. }
  eexists _, _, _, cb1, cb2.
  split; [by apply to_fp16_run|].
  split; [apply to_fp16_run; apply lookup_insert_eq|]. simpl.
  rewrite lookup_insert_eq. split; [done|]. split; [done|]. simpl.
  rewrite <- app_assoc. split; [done|]. split; [done|].
  split; [|split; [|done]].
  - rewrite lookup_insert_ne by done. by rewrite lookup_insert_eq.
  - by rewrite lookup_insert_eq.
Qed.

Lemma run_modify_learner_None r f w :
  learners w !! r = None → modify_learner r f w = None.
Proof.
  intros H. unfold modify_learner, get_learner. rewrite run_bind.
  by rewrite H.
Qed.

Lemma to_fp16_unallocated learn ls fm w :
  learners w !! learn = None → to_fp16 learn ls fm w = None.
Proof.
  intros H. unfold to_fp16. rewrite run_bind.
  by rewrite run_modify_learner_None.
Qed.

Lemma mixup_unallocated learn alpha sx sy w :
  learners w !! learn = None → mixup learn alpha sx sy w = None.
Proof.
  intros H. unfold mixup. rewrite run_bind. destruct sy.
  - by rewrite run_modify_learner_None.
  - simpl. unfold mret, M_ret. rewrite run_bind.
    by rewrite run_modify_learner_None.
Qed.

Lemma clip_grad_unallocated learn clip w :
  learners w !! learn = None → clip_grad learn clip w = None.
Proof.
  intros H. unfold clip_grad. rewrite run_bind.
  by rewrite run_modify_learner_None.
Qed.

(** X15: [to_fp16] commutes with [mixup] and with [clip_grad]: in either
    order the store ends up the same. *)
Theorem to_fp16_commutes learn loss_scale flat_master alpha stack_x stack_y
    clip w :
  (to_fp16 learn loss_scale flat_master
     ≫= λ _, mixup learn alpha stack_x stack_y) w
  = (mixup learn alpha stack_x stack_y
       ≫= λ _, to_fp16 learn loss_scale flat_master) w
  ∧ (to_fp16 learn loss_scale flat_master ≫= λ _, clip_grad learn clip) w
    = (clip_grad learn clip ≫= λ _, to_fp16 learn loss_scale flat_master) w.
Proof.
  rewrite !run_bind.
  destruct (learners w !! learn) as [l|] eqn:Hl.
  - rewrite (to_fp16_run _ _ _ _ _ Hl), (mixup_run _ _ _ _ _ _ Hl),
      (clip_grad_run _ _ _ _ Hl).
    split.
    + erewrite mixup_run by apply lookup_insert_eq.
      erewrite to_fp16_run by apply lookup_insert_eq.
      simpl. by rewrite !insert_insert_eq.
    + erewrite clip_grad_run by apply lookup_insert_eq.
      erewrite to_fp16_run by apply lookup_insert_eq.
      simpl. by rewrite !insert_insert_eq.
  - by rewrite to_fp16_unallocated, mixup_unallocated, clip_grad_unallocated.
Qed.

Lemma fit_one_cycle_run learn cyc_len max_lr moms div_factor pct_start wd
    callbacks kwargs w l :
  learners w !! learn = Some l →
  fit_one_cycle learn cyc_len max_lr moms div_factor pct_start wd callbacks
    kwargs w
  = Some (tt,
      {| learners :=
           <[learn := fit_effect cyc_len (lr_range l max_lr) wd
                        (listify callbacks ++ [fresh (dom (objects w))]) None
                        (registered "OneCycleScheduler"
                           (fresh (dom (objects w))) l)]> (learners w);
         objects :=
           <[fresh (dom (objects w))
               := OneCycleScheduler learn (lr_range l max_lr) moms div_factor
                    pct_start kwargs]> (objects w);
         calls := calls w ++
                  [call_fit learn cyc_len (lr_range l max_lr) wd
                     (listify callbacks ++ [fresh (dom (objects w))])
                     None] |}).
Proof.
  intros Hl. unfold fit_one_cycle, Learner_fit, record_call. step_store.
  by rewrite insert_insert_eq.
Qed.

(** X16: two runs of [fit_one_cycle] build two schedulers that are not the
    same object and call [learn.fit] twice, in order.  Each run resolves its
    rate on the learner as it finds it, then the constructor registers the
    scheduler on the learner, then [fit] runs: the rate of the second run is
    resolved against the learner as the first run left it. *)
Theorem fit_one_cycle_twice learn c1 m1 mo1 d1 p1 wd1 cbs1 k1 c2 m2 mo2 d2 p2
    wd2 cbs2 k2 w l :
  learners w !! learn = Some l →
  ∃ s1 s2 w1 w2 l1,
    fit_one_cycle learn c1 m1 mo1 d1 p1 wd1 cbs1 k1 w = Some (tt, w1)
    ∧ fit_one_cycle learn c2 m2 mo2 d2 p2 wd2 cbs2 k2 w1 = Some (tt, w2)
    ∧ s1 ≠ s2
    ∧ objects w !! s1 = None
    ∧ l1 = fit_effect c1 (lr_range l m1) wd1 (listify cbs1 ++ [s1]) None
             (registered "OneCycleScheduler" s1 l)
    ∧ learners w1 !! learn = Some l1
    ∧ learners w2 !! learn
      = Some (fit_effect c2 (lr_range l1 m2) wd2 (listify cbs2 ++ [s2]) None
                (registered "OneCycleScheduler" s2 l1))
    ∧ calls w2
      = calls w ++
        [call_fit learn c1 (lr_range l m1) wd1 (listify cbs1 ++ [s1]) None;
         call_fit learn c2 (lr_range l1 m2) wd2 (listify cbs2 ++ [s2]) None]
    ∧ objects w2 !! s1
      = Some (OneCycleScheduler learn (lr_range l m1) mo1 d1 p1 k1)
    ∧ objects w2 !! s2
      = Some (OneCycleScheduler learn (lr_range l1 m2) mo2 d2 p2 k2).
Proof.
  intros Hl.
  set (s1 := fresh (dom (objects w))).
  set (o1 := OneCycleScheduler learn (lr_range l m1) mo1 d1 p1 k1).
  set (s2 := fresh (dom (<[s1 := o1]> (objects w)))).
  assert (s1 ≠ s2) as Hne.
  { intros Heq. pose proof (is_fresh (dom (<[s1 := o1]> (objects w)))) as Hf.
    fold s2 in Hf. rewrite <- Heq in Hf. apply Hf.
    apply elem_of_dom. rewrite lookup_insert_eq. eauto. }
  eexists s1, s2, _, _, _.
  split; [by apply fit_one_cycle_run|].
  split; [apply fit_one_cycle_run; apply lookup_insert_eq|]. simpl.
  split; [done|]. split; [apply new_is_fresh|]. split; [done|].
  rewrite !lookup_insert_eq. split; [done|]. split; [done|].
  rewrite <- app_assoc. split; [done|].
  rewrite lookup_insert_ne by done. by rewrite lookup_insert_eq.
Qed.




Lemma set_model_same (l : Learner) : set_model (model l) l = l.
Proof. by destruct l. Qed.

Lemma backward_passes_clip self learn clip n : ∀ w l,
  objects w !! self = Some (GradientClipping learn clip) →
  learners w !! learn = Some l →
  (∀ s, clip ≠ S754_zero s) →
  backward_passes self n w
  = Some (tt,
      {| learners :=
           <[learn := set_model
                        (Nat.iter n (λ m, clip_grad_norm_ m clip) (model l))
                        l]> (learners w);
         objects := objects w;
         calls := calls w ++ replicate n (call_clip_grad_norm_ learn clip) |}).
Proof.
  induction n as [|n IH]; intros w l Hself Hl Hnz.
  - simpl. rewrite set_model_same, insert_id by done.
    rewrite app_nil_r. by destruct w.
  - cbn [backward_passes]. rewrite run_bind.
    assert (on_backward_end self w
            = Some (tt, {| learners :=
                             <[learn := set_model
                                          (clip_grad_norm_ (model l) clip) l]>
                               (learners w);
                           objects := objects w;
                           calls := calls w
                                    ++ [call_clip_grad_norm_ learn clip] |}))
      as ->.
    { unfold on_backward_end. rewrite Hself.
      destruct clip as [s| | |]; simpl; [by destruct (Hnz s)|..];
        unfold record_call; by step_store. }
    rewrite (IH _ (set_model (clip_grad_norm_ (model l) clip) l));
      [|done|apply lookup_insert_eq|done].
    cbn [learners objects calls]. rewrite insert_insert_eq, <- app_assoc.
    rewrite Nat.iter_succ_r. by destruct l.
Qed.

Lemma backward_passes_zero self learn s n : ∀ w,
  objects w !! self = Some (GradientClipping learn (S754_zero s)) →
  backward_passes self n w = Some (tt, w).
Proof.
  induction n as [|n IH]; intros w Hself; [done|].
  cbn [backward_passes]. rewrite run_bind.
  unfold on_backward_end at 1. rewrite Hself. simpl. by apply IH.
Qed.

(** X19: the constructor registers the new [GradientClipping] on the
    learner.  Built with a non-zero [clip], it clips once per backward
    pass, always with the bound it was built with; built with a zero
    [clip], the default among them, it never clips and leaves the store
    alone. *)
Theorem gradient_clipping_passes learn clip n w l :
  learners w !! learn = Some l →
  ∃ self w0,
    GradientClipping_init learn clip w = Some (self, w0)
    ∧ objects w !! self = None
    ∧ learners w0 !! learn = Some (registered "GradientClipping" self l)
    ∧ ((∀ s, clip ≠ S754_zero s) →
       ∃ w' l',
         backward_passes self n w0 = Some (tt, w')
         ∧ calls w' = calls w ++ replicate n (call_clip_grad_norm_ learn clip)
         ∧ learners w' !! learn = Some l'
         ∧ l' = set_model (Nat.iter n (λ m, clip_grad_norm_ m clip) (model l))
                  (registered "GradientClipping" self l))
    ∧ ((∃ s, clip = S754_zero s) → backward_passes self n w0 = Some (tt, w0))
    ∧ (clip = GradientClipping_default_clip →
       backward_passes self n w0 = Some (tt, w0)).
Proof.
  intros Hl. unfold GradientClipping_init.
  rewrite (run_new_LearnerCallback _ _ _ _ _ Hl).
  do 2 eexists. split; [done|]. split; [apply new_is_fresh|].
  split; [apply lookup_insert_eq|].
  split; [|split].
  - intros Hnz. do 2 eexists.
    split; [apply (backward_passes_clip _ learn clip n _
                     (registered "GradientClipping"
                        (fresh (dom (objects w))) l));
            [apply lookup_insert_eq|apply lookup_insert_eq|done]|].
    simpl. split; [done|]. rewrite lookup_insert_eq. done.
  - intros [s ->]. eapply backward_passes_zero. apply lookup_insert_eq.
  - intros ->. eapply backward_passes_zero. apply lookup_insert_eq.
Qed.

End AttachMore.

(** ** ShowGraph *)

Section ShowGraphFacts.
Context {Metrics : Type}.

Lemma cumsum_from_length l : ∀ acc, length (cumsum_from acc l) = length l.
Proof. induction l as [|x l IH]; intros acc; simpl; [done|]. by rewrite IH. Qed.

Lemma Zsum_nonneg l : Forall (λ b, 0 ≤ b) l → 0 ≤ Zsum l.
Proof. induction 1; simpl; lia. Qed.

Lemma cumsum_from_lookup l : ∀ acc i,
  0 ≤ acc → Forall (λ b, 0 ≤ b) l → acc + Zsum l < 2 ^ 63 →
  (i < length l)%nat →
  cumsum_from acc l !! i = Some (acc + Zsum (take (S i) l)).
Proof.
  induction l as [|x l IH]; intros acc i Hacc Hl Hsum Hi; simpl in Hi;
    [lia|].
  apply Forall_cons in Hl as [Hx Hl]. simpl in Hsum.
  pose proof (Zsum_nonneg l Hl) as Hnn.
  cbn [cumsum_from]. rewrite wrap64_small by lia.
  destruct i as [|i].
  - simpl. f_equal. lia.
  - change ((acc + x :: cumsum_from (acc + x) l) !! S i)
      with (cumsum_from (acc + x) l !! i).
    rewrite IH by (try done; lia).
    change (take (S (S i)) (x :: l)) with (x :: take (S i) l).
    change (Zsum (x :: take (S i) l)) with (x + Zsum (take (S i) l)).
    f_equal. lia.
Qed.

Lemma py_max_elem xs m : py_max xs = Some m → m ∈ xs.
Proof.
  destruct xs as [|x xs]; [done|]. intros [= <-].
  revert x. induction xs as [|y xs IH]; intros x; cbn [foldl].
  - apply elem_of_cons. by left.
  - specialize (IH (if SFltb x y then y else x)).
    apply elem_of_cons in IH as [IH|IH].
    + apply elem_of_cons. destruct (SFltb x y).
      * right. apply elem_of_cons. left. exact IH.
      * left. exact IH.
    + apply elem_of_cons. right. apply elem_of_cons. by right.
Qed.

Lemma py_max_None xs : py_max xs = None ↔ xs = [].
Proof. by destruct xs. Qed.

(** The order of [<] on floats that are not NaN. *)
Lemma SFltb_irrefl x : SFltb x x = false.
Proof.
  unfold SFltb, SFcompare.
  destruct x as [[]|[]| |[] m e]; try done;
    rewrite Z.compare_refl, Pos.compare_cont_refl; done.
Qed.

Lemma SFltb_le_lt x y z :
  x ≠ S754_nan → y ≠ S754_nan → z ≠ S754_nan →
  SFltb x y = false → SFltb x z = true → SFltb z y = false.
Proof.
  intros Hx Hy Hz. unfold SFltb, SFcompare.
  destruct x as [[]|[]| |[] mx ex], y as [[]|[]| |[] my ey],
    z as [[]|[]| |[] mz ez]; try done;
    repeat match goal with
    | |- context [(?a ?= ?b)%Z] =>
        destruct (Z.compare_spec a b); try subst; try done
    | |- context [Pos.compare_cont Eq ?a ?b] =>
        change (Pos.compare_cont Eq a b) with (Pos.compare a b);
        destruct (Pos.compare_spec a b); try subst; simpl; try done
    end; lia.
Qed.

Lemma SFltb_le_trans x y z :
  x ≠ S754_nan → y ≠ S754_nan → z ≠ S754_nan →
  SFltb y x = false → SFltb z y = false → SFltb z x = false.
Proof.
  intros Hx Hy Hz. unfold SFltb, SFcompare.
  destruct x as [[]|[]| |[] mx ex], y as [[]|[]| |[] my ey],
    z as [[]|[]| |[] mz ez]; try done;
    repeat match goal with
    | |- context [(?a ?= ?b)%Z] =>
        destruct (Z.compare_spec a b); try subst; try done
    | |- context [Pos.compare_cont Eq ?a ?b] =>
        change (Pos.compare_cont Eq a b) with (Pos.compare a b);
        destruct (Pos.compare_spec a b); try subst; simpl; try done
    end; lia.
Qed.

Lemma py_max_upper xs m :
  Forall (λ x, x ≠ S754_nan) xs → py_max xs = Some m →
  m ≠ S754_nan ∧ Forall (λ x, SFltb m x = false) xs.
Proof.
  destruct xs as [|x xs]; [done|]. intros Hxs [= <-].
  apply Forall_cons in Hxs as [Hx Hxs].
  enough (∀ seen, Forall (λ y, y ≠ S754_nan) seen →
                  Forall (λ y, SFltb x y = false) seen →
          let m := foldl (λ m y, if SFltb m y then y else m) x xs in
          m ≠ S754_nan ∧ Forall (λ y, SFltb m y = false) (seen ++ xs))
    as Hgen.
  { destruct (Hgen [x]) as [Hm Hall].
    - by apply Forall_singleton.
    - apply Forall_singleton, SFltb_irrefl.
    - done. }
  revert x Hx. induction Hxs as [|y xs Hy Hxs IH]; intros x Hx seen Hs Hle.
  - simpl. by rewrite app_nil_r.
  - cbn [foldl]. rewrite (assoc_L _ seen [y] xs : seen ++ y :: xs = _).
    destruct (SFltb x y) eqn:Hxy.
    + apply IH; [done|by apply Forall_app; split; [|apply Forall_singleton]|].
      apply Forall_app. split; [|apply Forall_singleton, SFltb_irrefl].
      rewrite Forall_forall in Hs, Hle. apply Forall_forall.
      intros u Hu. by apply (SFltb_le_lt x u y); auto.
    + apply IH; [done|by apply Forall_app; split; [|apply Forall_singleton]|].
      apply Forall_app. split; [done|by apply Forall_singleton].
Qed.

Lemma show_graph_run (rec : Recorder) (n_epochs : Z) (m : Metrics) :
  nb_batches rec ≠ [] → rec_losses rec ≠ [] → rec_val_losses rec ≠ [] →
  ∃ final m1 m2 top,
    last (nb_batches rec) = Some final
    ∧ py_max (to_float32 <$> rec_losses rec) = Some m1
    ∧ py_max (to_float32 <$> rec_val_losses rec) = Some m2
    ∧ py_max [m1; m2] = Some top
    ∧ ShowGraph_on_epoch_end rec n_epochs (Some m)
      = Some (Some false,
              [{| graphs := [(Z.of_nat <$> seq 0 (length (rec_losses rec)),
                              rec_losses rec);
                             (cumsum (nb_batches rec), rec_val_losses rec)];
                  x_bounds :=
                    (0, (n_epochs - Z.of_nat (length (nb_batches rec)))
                        * final + Z.of_nat (length (rec_losses rec)));
                  y_bounds := (0, top) |}]).
Proof.
  intros Hnb Hlo Hva. unfold ShowGraph_on_epoch_end.
  destruct (last (nb_batches rec)) as [final|] eqn:Hlast;
    [|by apply last_None in Hlast].
  destruct (rec_losses rec) as [|x xs] eqn:Hxs; [done|].
  destruct (rec_val_losses rec) as [|v vs] eqn:Hvs; [done|].
  do 4 eexists. repeat split.
Qed.

(** X20: with metrics, [on_epoch_end] raises exactly when the recorder has
    no epoch, no training loss or no validation loss yet; without metrics
    it draws nothing and returns [None]; it never returns [True], so it
    never asks the training loop to stop. *)
Theorem show_graph_raises_iff (rec : Recorder) (n_epochs : Z) :
  (∀ m : Metrics,
     ShowGraph_on_epoch_end rec n_epochs (Some m) = None
     ↔ nb_batches rec = [] ∨ rec_losses rec = [] ∨ rec_val_losses rec = [])
  ∧ ShowGraph_on_epoch_end rec n_epochs (@None Metrics) = Some (None, [])
  ∧ (∀ (lm : option Metrics) r ups,
       ShowGraph_on_epoch_end rec n_epochs lm = Some (r, ups) →
       r ≠ Some true ∧ (is_Some lm → r = Some false ∧ length ups = 1%nat)).
Proof.
  split; [|split; [done|]].
  - intros m. split.
    + intros Hnone.
      destruct (decide (nb_batches rec = [])) as [|Hnb]; [by left|].
      destruct (decide (rec_losses rec = [])) as [|Hlo]; [by right; left|].
      destruct (decide (rec_val_losses rec = [])) as [|Hva];
        [by right; right|].
      destruct (show_graph_run rec n_epochs m Hnb Hlo Hva)
        as (? & ? & ? & ? & _ & _ & _ & _ & Hrun).
      by rewrite Hrun in Hnone.
    + unfold ShowGraph_on_epoch_end. intros [->|[->| ->]]; [done|..].
      * by destruct (last (nb_batches rec)).
      * destruct (last (nb_batches rec)); [|done]. simpl.
        by destruct (py_max (to_float32 <$> rec_losses rec)).
  - intros [m|] r ups Hrun.
    + unfold ShowGraph_on_epoch_end in Hrun.
      destruct (last (nb_batches rec)); [|done]. simpl in Hrun.
      destruct (py_max (to_float32 <$> rec_losses rec)); [|done].
      simpl in Hrun.
      destruct (py_max (to_float32 <$> rec_val_losses rec)); [|done].
      simpl in Hrun. injection Hrun as <- <-. done.
    + injection Hrun as <- <-. split; [done|]. by intros [? ?].
Qed.

(** X21: when every epoch so far had [b] batches, the x axis of the graph
    runs from 0 to [n_epochs * b], the length of the whole training. *)
Theorem show_graph_x_bounds_even (rec : Recorder) (n_epochs : Z) (m : Metrics)
    (k : nat) (b : Z) :
  nb_batches rec = replicate (S k) b →
  Z.of_nat (length (rec_losses rec)) = Z.of_nat (S k) * b →
  0 < b →
  rec_val_losses rec ≠ [] →
  ∃ u, ShowGraph_on_epoch_end rec n_epochs (Some m) = Some (Some false, [u])
       ∧ x_bounds u = (0, n_epochs * b).
Proof.
  intros Hnb Hlen Hb Hva.
  destruct (show_graph_run rec n_epochs m)
    as (final & m1 & m2 & top & Hlast & _ & _ & _ & Hrun).
  - by rewrite Hnb.
  - intros Hnil. rewrite Hnil in Hlen. simpl length in Hlen. nia.
  - done.
  - eexists. split; [exact Hrun|]. simpl.
    rewrite Hnb in Hlast |- *.
    rewrite replicate_S_end, last_snoc in Hlast. injection Hlast as <-.
    rewrite length_replicate. f_equal. lia.
Qed.

(** X22: the validation curve has one point per epoch, drawn at the number
    of batches run up to the end of that epoch; when the training losses
    are one per batch, the last point is at the last training loss. *)
Theorem show_graph_validation_points (rec : Recorder) (n_epochs : Z)
    (m : Metrics) :
  nb_batches rec ≠ [] → rec_losses rec ≠ [] → rec_val_losses rec ≠ [] →
  Forall (λ b, 0 ≤ b) (nb_batches rec) →
  Zsum (nb_batches rec) < 2 ^ 63 →
  ∃ u val_iter,
    ShowGraph_on_epoch_end rec n_epochs (Some m) = Some (Some false, [u])
    ∧ graphs u = [(Z.of_nat <$> seq 0 (length (rec_losses rec)),
                   rec_losses rec);
                  (val_iter, rec_val_losses rec)]
    ∧ length val_iter = length (nb_batches rec)
    ∧ (∀ i, (i < length (nb_batches rec))%nat →
            val_iter !! i = Some (Zsum (take (S i) (nb_batches rec))))
    ∧ (Z.of_nat (length (rec_losses rec)) = Zsum (nb_batches rec) →
       last val_iter = Some (Z.of_nat (length (rec_losses rec)))).
Proof.
  intros Hnb Hlo Hva Hpos Hsum.
  destruct (show_graph_run rec n_epochs m Hnb Hlo Hva)
    as (final & m1 & m2 & top & _ & _ & _ & _ & Hrun).
  eexists _, (cumsum (nb_batches rec)). split; [exact Hrun|]. simpl.
  split; [done|]. split; [apply cumsum_from_length|].
  assert (∀ i, (i < length (nb_batches rec))%nat →
            cumsum (nb_batches rec) !! i
            = Some (Zsum (take (S i) (nb_batches rec)))) as Hpt.
  { intros i Hi. unfold cumsum. by rewrite cumsum_from_lookup. }
  split; [done|]. intros Hlen.
  rewrite last_lookup.
  replace (length (cumsum (nb_batches rec)))
    with (length (nb_batches rec)) by (symmetry; apply cumsum_from_length).
  destruct (nb_batches rec) as [|b0 bs] eqn:Hbs; [done|].
  simpl length. simpl pred. rewrite Hpt by (simpl; lia).
  rewrite take_ge by (simpl; lia). by rewrite Hlen.
Qed.

(** X23: the y axis runs from 0 to one of the recorded losses converted to
    single precision; when none of the converted losses is NaN, none of
    them is greater than this bound.  The bound is on the converted
    losses, not on the losses as recorded. *)
Theorem show_graph_y_bound (rec : Recorder) (n_epochs : Z) (m : Metrics) :
  nb_batches rec ≠ [] → rec_losses rec ≠ [] → rec_val_losses rec ≠ [] →
  ∃ u top,
    ShowGraph_on_epoch_end rec n_epochs (Some m) = Some (Some false, [u])
    ∧ y_bounds u = (0, top)
    ∧ top ∈ to_float32 <$> (rec_losses rec ++ rec_val_losses rec)
    ∧ (Forall (λ x, to_float32 x ≠ S754_nan)
         (rec_losses rec ++ rec_val_losses rec) →
       Forall (λ x, SFltb top (to_float32 x) = false)
         (rec_losses rec ++ rec_val_losses rec)).
Proof.
  intros Hnb Hlo Hva.
  destruct (show_graph_run rec n_epochs m Hnb Hlo Hva)
    as (final & m1 & m2 & top & _ & Hm1 & Hm2 & Htop & Hrun).
  eexists _, top. split; [exact Hrun|]. simpl. split; [done|].
  split.
  - rewrite fmap_app. apply elem_of_app.
    apply py_max_elem in Htop, Hm1, Hm2.
    apply elem_of_cons in Htop as [->|Htop]; [by left|].
    apply elem_of_cons in Htop as [->|Htop]; [by right|].
    by apply elem_of_nil in Htop.
  - intros Hnan. apply Forall_app in Hnan as [Hn1 Hn2].
    apply py_max_upper in Hm1 as [Hm1 Hu1]; [|by apply Forall_fmap].
    apply py_max_upper in Hm2 as [Hm2 Hu2]; [|by apply Forall_fmap].
    apply py_max_upper in Htop as [Ht Hut];
      [|by apply Forall_cons; split; [|apply Forall_singleton]].
    apply Forall_cons in Hut as [Ht1 Ht2].
    rewrite Forall_singleton in Ht2.
    apply Forall_fmap in Hu1, Hu2.
    apply Forall_app. split.
    + rewrite Forall_forall in Hu1, Hn1. apply Forall_forall.
      intros x Hx.
      apply (SFltb_le_trans _ m1);
        [by apply Hn1|done|done|by apply (Hu1 x)|done].
    + rewrite Forall_forall in Hu2, Hn2. apply Forall_forall.
      intros x Hx.
      apply (SFltb_le_trans _ m2);
        [by apply Hn2|done|done|by apply (Hu2 x)|done].
Qed.

End ShowGraphFacts.

(** * The statements on concrete inputs *)

Section Concrete.
Import Demo.

Lemma confusion_matrix_contingency_witness :
  ClassificationInterpretation_init (bunch 1 2) (probs interp)
    (y_true interp) (losses interp) = Some interp
  ∧ Z.of_nat (length (y_true interp)) < 2 ^ 63
  ∧ argmax_dim1 (probs interp) = Some (pred_class interp)
  ∧ ∃ cm, confusion_matrix interp = Some cm
      ∧ length cm = 2%nat
      ∧ Forall (λ row, length row = 2%nat) cm
      ∧ ∀ i j : nat, (i < 2)%nat → (j < 2)%nat →
          cm !! i ≫= (.!! j)
          = Some (Z.of_nat (tally (pred_class interp) (y_true interp)
                              (Z.of_nat i) (Z.of_nat j) 3)).
Proof.
  split; [reflexivity|]. split; [reflexivity|].
  apply (confusion_matrix_contingency (bunch 1 2) (probs interp)
           (y_true interp) (losses interp) interp); reflexivity.
Defined.

(** C1 as first stated fails: [__init__] takes three labels with the
    probabilities of one sample.  The labels and the one prediction are
    among the classes and the matrix comes back, but only the first sample
    is in it: row 0 sums to 1 where two samples have the label 0. *)
Lemma confusion_matrix_sums_short_predictions :
  ∃ self cm,
    ClassificationInterpretation_init (bunch 1 2)
      [[ratio 9 10; ratio 1 10]] [0; 1; 0]
      [ratio 1 10; ratio 1 5; ratio 6 5] = Some self
    ∧ y_true self = [0; 1; 0] ∧ pred_class self = [0]
    ∧ in_classes (c (ci_data self)) (y_true self)
    ∧ in_classes (c (ci_data self)) (pred_class self)
    ∧ confusion_matrix self = Some cm
    ∧ row_sum cm 0 = 1
    ∧ class_count (y_true self) 0 = 2%nat
    ∧ row_sum cm 0 ≠ Z.of_nat (class_count (y_true self) 0).
Proof.
  do 2 eexists. split; [vm_compute; reflexivity|].
  split; [reflexivity|]. split; [reflexivity|].
  split; [unfold in_classes; simpl; repeat constructor; lia|].
  split; [unfold in_classes; simpl; repeat constructor; lia|].
  split; [vm_compute; reflexivity|].
  split; [reflexivity|]. split; [reflexivity|]. discriminate.
Qed.

Lemma confusion_matrix_sums_witness :
  ClassificationInterpretation_init (bunch 1 2) (probs interp)
    (y_true interp) (losses interp) = Some interp
  ∧ argmax_dim1 (probs interp) = Some (pred_class interp)
  ∧ ∃ cm, confusion_matrix interp = Some cm
      ∧ length cm = 2%nat
      ∧ Forall (λ row, length row = 2%nat) cm
      ∧ ∀ i : nat, (i < 2)%nat →
          row_sum cm i = Z.of_nat (class_count (y_true interp) (Z.of_nat i))
          ∧ col_sum cm i
            = Z.of_nat (class_count (pred_class interp) (Z.of_nat i)).
Proof.
  split; [reflexivity|].
  apply (confusion_matrix_sums (bunch 1 2) (probs interp)
           (y_true interp) (losses interp) interp);
    [reflexivity | reflexivity | reflexivity | |];
    unfold in_classes; simpl; repeat constructor; lia.
Defined.

Lemma mixup_effect_witness :
  learners (world 3) !! 1%positive = Some (learner 3)
  ∧ ∃ w' l',
      mixup 1%positive (ratio 2 5) false true (world 3)
      = Some (1%positive, w')
      ∧ learners w' = <[1%positive := l']> (learners (world 3))
      ∧ objects w' = ∅ ∧ calls w' = []
      ∧ loss_func l' = MixUpLoss (Crit tt)
      ∧ callback_fns l'
        = [partial class_MixUpCallback
             [("alpha"%string, PyFloat (ratio 2 5));
              ("stack_x"%string, PyBool false);
              ("stack_y"%string, PyBool true)]]
      ∧ model l' = [] ∧ data l' = bunch 3 2
      ∧ callbacks l' = [] ∧ mp_cb l' = Missing ∧ rest l' = [].
Proof.
  split; [reflexivity|].
  exact (mixup_effect 1%positive (ratio 2 5) false true (world 3)
           (learner 3) eq_refl).
Defined.


(** C5 as first read fails: the base-class constructor that
    [GradientClipping.__init__] calls writes to the learner too. *)
Lemma only_wrapper_state_fails : ¬ only_wrapper_state.
Proof.
  intros H.
  edestruct (H 1%positive (ratio 1 10) (world 3) (learner 3)) as [_ Hsame];
    [reflexivity | vm_compute; reflexivity |].
  assert (learners (world 3) !! 1%positive
          = Some (registered "GradientClipping" 1%positive (learner 3)))
    as Hl by (rewrite <- Hsame; reflexivity).
  vm_compute in Hl. discriminate Hl.
Qed.


Lemma callback_configuration_stored_witness :
  learners (world 3) !! 1%positive = Some (learner 3)
  ∧ (∃ self w' l',
       GradientClipping_init 1%positive (ratio 1 10) (world 3)
       = Some (self, w')
       ∧ objects w' !! self ≫= GradientClipping_clip = Some (ratio 1 10)
       ∧ learners w' !! 1%positive = Some l'
       ∧ rest l' = [("GradientClipping"%string, self)]
       ∧ set_rest [] l' = learner 3)
  ∧ (∃ w' l' kw,
       mixup 1%positive (ratio 2 5) false true (world 3)
       = Some (1%positive, w')
       ∧ learners w' !! 1%positive = Some l'
       ∧ last (callback_fns l') = Some (partial class_MixUpCallback kw)
       ∧ kwarg "alpha" kw = Some (PyFloat (ratio 2 5))
       ∧ kw = [("alpha"%string, PyFloat (ratio 2 5));
               ("stack_x"%string, PyBool false);
               ("stack_y"%string, PyBool true)]
       ∧ objects w' = objects (world 3)).
Proof.
  split; [reflexivity|].
  destruct (callback_configuration_stored 1%positive (world 3) (learner 3)
              eq_refl) as (Hclip & Hmix).
  split.
  - destruct (Hclip (ratio 1 10))
      as (self & w' & Hrun & _ & _ & Hfield & Hlearners & _).
    eexists self, w', _. split; [exact Hrun|]. split; [exact Hfield|].
    split; [rewrite Hlearners; apply lookup_insert_eq|].
    split; reflexivity.
  - apply (Hmix (ratio 2 5) false true).
Defined.

Lemma fit_one_cycle_delegates_witness :
  learners (world 3) !! 1%positive = Some (learner 3)
  ∧ ∃ sched w',
      fit_one_cycle (FW := framework) 1%positive 4 (ratio 3 1000)
        (ratio 19 20, ratio 17 20)
        (ratio 25 1) (ratio 3 10) None (ArgList [7%positive; 5%positive]) tt
        (world 3) = Some (tt, w')
      ∧ objects (world 3) !! sched = None
      ∧ objects w'
        = <[sched := OneCycleScheduler (FW := framework) 1%positive
                       (ratio 3 1000)
                       (ratio 19 20, ratio 17 20) (ratio 25 1) (ratio 3 10)
                       tt]> (objects (world 3))
      ∧ calls w'
        = [call_fit (FW := framework) 1%positive 4 (ratio 3 1000) None
             [7%positive; 5%positive; sched] None].
Proof.
  split; [reflexivity|].
  exact (fit_one_cycle_delegates (FW := framework) 1%positive 4
           (ratio 3 1000)
           (ratio 19 20, ratio 17 20) (ratio 25 1) (ratio 3 10) None
           (ArgList [7%positive; 5%positive]) tt (world 3) (learner 3)
           eq_refl).
Defined.

Lemma on_backward_end_clips_witness :
  (on_backward_end 1%positive (clipping_world (ratio 1 10))
   = Some (tt, {| learners :=
                    <[1%positive :=
                        set_model (FW := framework) [op_clip (ratio 1 10)]
                          (learner 3)]>
                      (learners (clipping_world (ratio 1 10)));
                  objects := objects (clipping_world (ratio 1 10));
                  calls := [call_clip_grad_norm_ 1%positive (ratio 1 10)] |}))
  ∧ on_backward_end 1%positive (clipping_world (S754_zero false))
    = Some (tt, clipping_world (S754_zero false)).
Proof.
  split.
  - apply (on_backward_end_clips 1%positive 1%positive (ratio 1 10)
             (clipping_world (ratio 1 10)) (learner 3) eq_refl eq_refl).
    intros s. discriminate.
  - apply (on_backward_end_clips 1%positive 1%positive (S754_zero false)
             (clipping_world (S754_zero false)) (learner 3) eq_refl eq_refl).
    by exists false.
Defined.

(** C8 at [min_val = -1]: the diagonal cell of the only class comes back,
    with the zero that [fill_diagonal] wrote into it. *)
Theorem most_confused_negative_min_val :
  confusion_matrix single = Some [[1]]
  ∧ most_confused single (-1) = Some [(0, 0, 0)].
Proof. split; reflexivity. Qed.

(** C9 after two [to_fp16]: the loop of [to_fp32] removes the first
    [MixedPrecision] callback and steps over the second, which stays in
    [learn.callbacks]. *)
Theorem to_fp32_skips_a_callback :
  ∃ w1 w2 w3 l2 l3,
    to_fp16 1%positive (ratio 512 1) false (world 3) = Some (1%positive, w1)
    ∧ to_fp16 1%positive (ratio 512 1) false w1 = Some (1%positive, w2)
    ∧ learners w2 !! 1%positive = Some l2
    ∧ callbacks l2 = [1%positive; 2%positive]
    ∧ to_fp32 1%positive w2 = Some (1%positive, w3)
    ∧ learners w3 !! 1%positive = Some l3
    ∧ callbacks l3 = [2%positive]
    ∧ objects w3 !! 2%positive
      = Some (MixedPrecision 1%positive (ratio 512 1) false).
Proof.
  do 5 eexists.
  split; [vm_compute; reflexivity|].
  split; [vm_compute; reflexivity|].
  split; [vm_compute; reflexivity|].
  split; [reflexivity|].
  split; [vm_compute; reflexivity|].
  split; [vm_compute; reflexivity|].
  split; reflexivity.
Qed.



End Concrete.

(** * The further properties on concrete inputs *)

Section ConcreteMore.
Import Demo.

Lemma confusion_matrix_total_witness :
  Z.of_nat (length (y_true interp)) < 2 ^ 63
  ∧ ∃ cm, confusion_matrix interp = Some cm ∧ total cm = 3.
Proof.
  split; [reflexivity|].
  destruct (confusion_matrix_total interp eq_refl) as (cm & Hcm & Htot & _).
  exists cm. split; [exact Hcm|]. rewrite Htot. reflexivity.
Defined.

Lemma confusion_matrix_trace_witness :
  Z.of_nat (length (y_true interp)) < 2 ^ 63
  ∧ ∃ cm, confusion_matrix interp = Some cm ∧ trace cm = 2.
Proof.
  split; [reflexivity|].
  destruct (confusion_matrix_trace interp eq_refl) as (cm & Hcm & Htr).
  exists cm. split; [exact Hcm|]. rewrite Htr. reflexivity.
Defined.

Lemma most_confused_above_threshold_witness :
  Z.of_nat (length (y_true interp)) < 2 ^ 63
  ∧ 0 ≤ 0
  ∧ ∃ cm res,
      confusion_matrix interp = Some cm
      ∧ most_confused interp 0 = Some res
      ∧ StronglySorted (λ a b : Z * Z * Z, b.2 ≤ a.2) res
      ∧ (∀ i j v,
           (i, j, v) ∈ res
           ↔ ∃ i' j' : nat,
               i = Z.of_nat i' ∧ j = Z.of_nat j' ∧ i' ≠ j'
               ∧ cm !! i' ≫= (.!! j') = Some v ∧ 0 < v)
      ∧ NoDup res
      ∧ StronglySorted entry_before res.
Proof.
  split; [reflexivity|]. split; [apply Z.le_refl|].
  exact (most_confused_above_threshold interp 0 eq_refl (Z.le_refl 0)).
Defined.

Lemma most_confused_perfect_witness :
  Z.of_nat (length (y_true (labelled [0; 1; 0] [0; 1; 0]))) < 2 ^ 63
  ∧ 0 ≤ 0
  ∧ pred_class (labelled [0; 1; 0] [0; 1; 0])
    = y_true (labelled [0; 1; 0] [0; 1; 0])
  ∧ most_confused (labelled [0; 1; 0] [0; 1; 0]) 0 = Some [].
Proof.
  split; [reflexivity|]. split; [apply Z.le_refl|]. split; [reflexivity|].
  exact (most_confused_perfect (labelled [0; 1; 0] [0; 1; 0]) 0 eq_refl
           (Z.le_refl 0) eq_refl).
Defined.

Lemma most_confused_raise_threshold_witness :
  Z.of_nat (length (y_true (labelled [0; 0; 0; 1] [1; 1; 0; 0]))) < 2 ^ 63
  ∧ 0 ≤ 1
  ∧ ∃ res1,
      most_confused (labelled [0; 0; 0; 1] [1; 1; 0; 0]) 0 = Some res1
      ∧ most_confused (labelled [0; 0; 0; 1] [1; 1; 0; 0]) 1
        = Some (filter (λ t, 1 < t.2) res1).
Proof.
  split; [reflexivity|]. split; [lia|].
  apply (most_confused_raise_threshold (labelled [0; 0; 0; 1] [1; 1; 0; 0])
           0 1 eq_refl).
  lia.
Defined.

Lemma most_confused_counts_errors_witness :
  Z.of_nat (length (y_true interp)) < 2 ^ 63
  ∧ ∃ cm res,
      confusion_matrix interp = Some cm
      ∧ most_confused interp 0 = Some res
      ∧ Zsum ((λ t, t.2) <$> res) = total cm - trace cm.
Proof.
  split; [reflexivity|].
  exact (most_confused_counts_errors interp eq_refl).
Defined.

Lemma confusion_matrix_order_free_witness :
  c (ci_data (labelled [0; 0; 1] [1; 0; 1])) = c (ci_data interp)
  ∧ samples (labelled [0; 0; 1] [1; 0; 1]) ≡ₚ samples interp
  ∧ Z.of_nat (length (y_true interp)) < 2 ^ 63
  ∧ Z.of_nat (length (y_true (labelled [0; 0; 1] [1; 0; 1]))) < 2 ^ 63
  ∧ ∃ cm, confusion_matrix interp = Some cm
          ∧ confusion_matrix (labelled [0; 0; 1] [1; 0; 1]) = Some cm.
Proof.
  assert (samples (labelled [0; 0; 1] [1; 0; 1]) ≡ₚ samples interp) as Hperm.
  { apply (Permutation_cons_append [(0, 0); (1, 1)] (0, 1)). }
  split; [reflexivity|]. split; [exact Hperm|].
  split; [reflexivity|]. split; [reflexivity|].
  exact (confusion_matrix_order_free interp (labelled [0; 0; 1] [1; 0; 1])
           eq_refl Hperm eq_refl eq_refl).
Defined.

Lemma confusion_matrix_swap_transposes_witness :
  Z.of_nat (length (y_true interp)) < 2 ^ 63
  ∧ Z.of_nat (length (pred_class interp)) < 2 ^ 63
  ∧ ∃ cm cm',
      confusion_matrix interp = Some cm
      ∧ confusion_matrix (swap_roles interp) = Some cm'
      ∧ length cm' = length cm
      ∧ ∀ i j : nat, cm' !! i ≫= (.!! j) = cm !! j ≫= (.!! i).
Proof.
  split; [reflexivity|]. split; [reflexivity|].
  exact (confusion_matrix_swap_transposes interp eq_refl eq_refl).
Defined.

Lemma confusion_matrix_additive_witness :
  y_true (labelled [0; 1; 0; 1] [0; 1; 1; 0])
  = y_true interp ++ y_true (labelled [1] [0])
  ∧ pred_class (labelled [0; 1; 0; 1] [0; 1; 1; 0])
    = pred_class interp ++ pred_class (labelled [1] [0])
  ∧ length (pred_class interp) = length (y_true interp)
  ∧ ∃ cm1 cm2,
      confusion_matrix interp = Some cm1
      ∧ confusion_matrix (labelled [1] [0]) = Some cm2
      ∧ confusion_matrix (labelled [0; 1; 0; 1] [0; 1; 1; 0])
        = Some (Torch.add cm1 cm2).
Proof.
  split; [reflexivity|]. split; [reflexivity|]. split; [reflexivity|].
  exact (confusion_matrix_additive interp (labelled [1] [0])
           (labelled [0; 1; 0; 1] [0; 1; 1; 0])
           eq_refl eq_refl eq_refl eq_refl eq_refl eq_refl).
Defined.

Lemma to_fp32_keeps_other_callbacks_witness :
  learners busy_world !! 1%positive = Some busy_learner
  ∧ ∃ w' l',
      to_fp32 1%positive busy_world = Some (1%positive, w')
      ∧ learners w' !! 1%positive = Some l'
      ∧ filter (λ cb, is_MixedPrecision_at busy_world cb = false)
          (callbacks l')
        = filter (λ cb, is_MixedPrecision_at busy_world cb = false)
            (callbacks busy_learner)
      ∧ (Forall (λ cb, is_MixedPrecision_at busy_world cb = false)
           (callbacks busy_learner) →
         callbacks l' = callbacks busy_learner).
Proof.
  split; [reflexivity|].
  exact (to_fp32_keeps_other_callbacks 1%positive busy_world busy_learner
           {| n_batches := 3; tfms := [0%nat] |}
           {| n_batches := 3; tfms := [] |} IsNone Missing
           eq_refl eq_refl eq_refl eq_refl eq_refl).
Defined.

Lemma to_fp32_raises_iff_witness :
  learners bare_world !! 1%positive = Some bare_learner
  ∧ to_fp32 1%positive bare_world = None.
Proof.
  split; [reflexivity|].
  apply (to_fp32_raises_iff 1%positive bare_world bare_learner eq_refl).
  intros (d & Hd & _). discriminate Hd.
Defined.

Lemma to_fp16_to_fp32_round_trip_witness :
  learners clipped_world !! 1%positive = Some clipped_learner
  ∧ no_MixedPrecision clipped_world (callbacks clipped_learner)
  ∧ ∃ w1 w2 l2 cb,
      to_fp16 1%positive (ratio 512 1) false clipped_world
      = Some (1%positive, w1)
      ∧ to_fp32 1%positive w1 = Some (1%positive, w2)
      ∧ learners w2 !! 1%positive = Some l2
      ∧ callbacks l2 = [1%positive]
      ∧ model l2 = [op_half; op_float]
      ∧ mp_cb l2 = Obj cb ∧ (cb ∉ callbacks l2)
      ∧ objects w2 !! cb
        = Some (MixedPrecision 1%positive (ratio 512 1) false)
      ∧ loss_func l2 = Crit tt ∧ callback_fns l2 = [].
Proof.
  assert (no_MixedPrecision clipped_world (callbacks clipped_learner))
    as Hnone.
  { constructor; [|constructor]. eexists. split; reflexivity. }
  split; [reflexivity|]. split; [exact Hnone|].
  exact (to_fp16_to_fp32_round_trip 1%positive (ratio 512 1) false
           clipped_world clipped_learner
           {| n_batches := 3; tfms := [0%nat] |}
           {| n_batches := 3; tfms := [] |} IsNone Missing
           eq_refl Hnone eq_refl eq_refl eq_refl eq_refl).
Defined.

Lemma mixup_twice_witness :
  learners (world 3) !! 1%positive = Some (learner 3)
  ∧ ∃ w1 w2 l2 f1 f2,
      mixup 1%positive (ratio 2 5) false true (world 3)
      = Some (1%positive, w1)
      ∧ mixup 1%positive (ratio 1 5) true true w1 = Some (1%positive, w2)
      ∧ learners w2 !! 1%positive = Some l2
      ∧ f1 = partial class_MixUpCallback
               [("alpha"%string, PyFloat (ratio 2 5));
                ("stack_x"%string, PyBool false);
                ("stack_y"%string, PyBool true)]
      ∧ f2 = partial class_MixUpCallback
               [("alpha"%string, PyFloat (ratio 1 5));
                ("stack_x"%string, PyBool true);
                ("stack_y"%string, PyBool true)]
      ∧ callback_fns l2 = [f1; f2]
      ∧ model l2 = [] ∧ data l2 = bunch 3 2
      ∧ callbacks l2 = [] ∧ mp_cb l2 = Missing ∧ rest l2 = []
      ∧ objects w2 = ∅ ∧ calls w2 = []
      ∧ loss_func l2 = MixUpLoss (MixUpLoss (Crit tt))
      ∧ (true = true → true = true →
         loss_func l2 = MixUpLoss (MixUpLoss (Crit tt))).
Proof.
  split; [reflexivity|].
  exact (mixup_twice 1%positive (ratio 2 5) (ratio 1 5) false true true true
           (world 3) (learner 3) eq_refl).
Defined.

Lemma to_fp16_twice_witness :
  learners (world 3) !! 1%positive = Some (learner 3)
  ∧ ∃ w1 w2 l2 cb1 cb2,
      to_fp16 1%positive (ratio 512 1) false (world 3)
      = Some (1%positive, w1)
      ∧ to_fp16 1%positive (ratio 128 1) true w1 = Some (1%positive, w2)
      ∧ learners w2 !! 1%positive = Some l2
      ∧ cb1 ≠ cb2
      ∧ callbacks l2 = [cb1; cb2]
      ∧ mp_cb l2 = Obj cb2
      ∧ objects w2 !! cb1
        = Some (MixedPrecision 1%positive (ratio 512 1) false)
      ∧ objects w2 !! cb2
        = Some (MixedPrecision 1%positive (ratio 128 1) true)
      ∧ model l2 = [op_half; op_half].
Proof.
  split; [reflexivity|].
  exact (to_fp16_twice 1%positive (ratio 512 1) false (ratio 128 1) true
           (world 3) (learner 3) eq_refl).
Defined.

Lemma fit_one_cycle_twice_witness :
  learners (world 3) !! 1%positive = Some (learner 3)
  ∧ ∃ s1 s2 w1 w2,
      fit_one_cycle (FW := framework) 1%positive 4 (ratio 3 1000)
        (ratio 19 20, ratio 17 20) (ratio 25 1) (ratio 3 10) None
        (ArgItem 7%positive) tt (world 3) = Some (tt, w1)
      ∧ fit_one_cycle (FW := framework) 1%positive 2 (ratio 1 1000)
          (ratio 19 20, ratio 17 20) (ratio 25 1) (ratio 3 10) None
          ArgNone tt w1 = Some (tt, w2)
      ∧ s1 ≠ s2
      ∧ (∃ l2, learners w2 !! 1%positive = Some l2
               ∧ rest l2 = [("OneCycleScheduler"%string, s2);
                            ("OneCycleScheduler"%string, s1)])
      ∧ calls w2
        = [call_fit (FW := framework) 1%positive 4 (ratio 3 1000) None
             [7%positive; s1] None;
           call_fit (FW := framework) 1%positive 2 (ratio 1 1000) None
             [s2] None].
Proof.
  split; [reflexivity|].
  destruct (fit_one_cycle_twice (FW := framework) 1%positive
              4 (ratio 3 1000) (ratio 19 20, ratio 17 20) (ratio 25 1)
              (ratio 3 10) None (ArgItem 7%positive) tt
              2 (ratio 1 1000) (ratio 19 20, ratio 17 20) (ratio 25 1)
              (ratio 3 10) None ArgNone tt (world 3) (learner 3) eq_refl)
    as (s1 & s2 & w1 & w2 & l1 & H1 & H2 & Hne & _ & Hl1 & _ & Hl2 & Hcalls
        & _).
  exists s1, s2, w1, w2. split; [exact H1|]. split; [exact H2|].
  split; [exact Hne|]. split; [|exact Hcalls].
  eexists. split; [exact Hl2|]. rewrite Hl1. reflexivity.
Defined.



Lemma gradient_clipping_passes_witness :
  learners (world 3) !! 1%positive = Some (learner 3)
  ∧ ∃ self w0 w' l',
      GradientClipping_init 1%positive (ratio 1 10) (world 3)
      = Some (self, w0)
      ∧ backward_passes self 2 w0 = Some (tt, w')
      ∧ calls w' = [call_clip_grad_norm_ 1%positive (ratio 1 10);
                    call_clip_grad_norm_ 1%positive (ratio 1 10)]
      ∧ learners w' !! 1%positive = Some l'
      ∧ model l' = [op_clip (ratio 1 10); op_clip (ratio 1 10)]
      ∧ rest l' = [("GradientClipping"%string, self)].
Proof.
  split; [reflexivity|].
  destruct (gradient_clipping_passes 1%positive (ratio 1 10) 2 (world 3)
              (learner 3) eq_refl)
    as (self & w0 & Hinit & _ & _ & Hclip & _).
  destruct Hclip as (w' & l' & Hrun & Hcalls & Hl' & ->);
    [intros s; discriminate|].
  eexists self, w0, w', _. split; [exact Hinit|]. split; [exact Hrun|].
  split; [exact Hcalls|]. split; [exact Hl'|]. split; reflexivity.
Defined.

Lemma show_graph_x_bounds_even_witness :
  nb_batches recorder = replicate 2 2
  ∧ Z.of_nat (length (rec_losses recorder)) = Z.of_nat 2 * 2
  ∧ 0 < 2
  ∧ rec_val_losses recorder ≠ []
  ∧ ∃ u, ShowGraph_on_epoch_end recorder 5 (Some tt)
         = Some (Some false, [u])
         ∧ x_bounds u = (0, 5 * 2).
Proof.
  split; [reflexivity|]. split; [reflexivity|]. split; [reflexivity|].
  split; [discriminate|].
  exact (show_graph_x_bounds_even recorder 5 tt 1 2 eq_refl eq_refl eq_refl
           ltac:(discriminate)).
Defined.

Lemma show_graph_validation_points_witness :
  Forall (λ b, 0 ≤ b) (nb_batches recorder)
  ∧ Zsum (nb_batches recorder) < 2 ^ 63
  ∧ ∃ u val_iter,
      ShowGraph_on_epoch_end recorder 5 (Some tt) = Some (Some false, [u])
      ∧ graphs u = [(Z.of_nat <$> seq 0 (length (rec_losses recorder)),
                     rec_losses recorder);
                    (val_iter, rec_val_losses recorder)]
      ∧ length val_iter = length (nb_batches recorder)
      ∧ (∀ i, (i < length (nb_batches recorder))%nat →
              val_iter !! i = Some (Zsum (take (S i) (nb_batches recorder))))
      ∧ (Z.of_nat (length (rec_losses recorder)) = Zsum (nb_batches recorder)
         → last val_iter = Some (Z.of_nat (length (rec_losses recorder)))).
Proof.
  assert (Forall (λ b, 0 ≤ b) (nb_batches recorder)) as Hpos.
  { repeat constructor; lia. }
  split; [exact Hpos|]. split; [reflexivity|].
  exact (show_graph_validation_points recorder 5 tt
           ltac:(discriminate) ltac:(discriminate) ltac:(discriminate)
           Hpos eq_refl).
Defined.

Lemma show_graph_y_bound_witness :
  nb_batches recorder ≠ [] ∧ rec_losses recorder ≠ []
  ∧ rec_val_losses recorder ≠ []
  ∧ ∃ u top,
      ShowGraph_on_epoch_end recorder 5 (Some tt) = Some (Some false, [u])
      ∧ y_bounds u = (0, top)
      ∧ top ∈ to_float32 <$> (rec_losses recorder ++ rec_val_losses recorder)
      ∧ (Forall (λ x, to_float32 x ≠ S754_nan)
           (rec_losses recorder ++ rec_val_losses recorder) →
         Forall (λ x, SFltb top (to_float32 x) = false)
           (rec_losses recorder ++ rec_val_losses recorder))
      ∧ top = to_float32 (ratio 9 10)
      ∧ top ≠ ratio 9 10.
Proof.
  split; [discriminate|]. split; [discriminate|]. split; [discriminate|].
  destruct (show_graph_y_bound recorder 5 tt
              ltac:(discriminate) ltac:(discriminate) ltac:(discriminate))
    as (u & top & Hrun & Hy & Hin & Hall).
  exists u, top. do 4 (split; [assumption|]).
  assert (top = to_float32 (ratio 9 10)) as ->.
  { vm_compute in Hrun. injection Hrun as <-.
    simpl in Hy. injection Hy as <-. vm_compute. reflexivity. }
  split; [reflexivity|]. vm_compute. discriminate.
Defined.

End ConcreteMore.
